(** * PokemonCatcherApp: catch-rate model, ring classifier and chain tracker

    A shallow embedding of the algorithmic core of
    [PokemonCatcherApp/app.py] (the current, "multiplicative" variant) and
    [PokemonCatcherApp/pokemon_catchrate.py] (the older, "additive"
    variant), with the properties the specification states about them.

    Numbers.  Python's [float] (binary64) arithmetic is idealised by the
    real numbers of the Standard Library: [x ** y] and [np.pow x y] on a
    positive base are [Rpower x y], [round(x, 2)] is rounding of [100 * x]
    to the nearest integer (ties to even) divided by [100].  Python's [int]
    is [Z].  What leaves the reals is modelled where the code can reach it:
    the conversion of an [int] to a float raises [OverflowError] outside
    the range of a float, and a power of a base that is zero or negative is
    a zero, a nan (numpy) or a complex number (the interpreter), with the
    result or the exception each of them leads to.  The rounding of float
    operations and the range of the values of type [float] themselves are
    not modelled.  The JSON tables are not part of the sources; they are
    fields of the program state, and the theorems quantify over them. *)

From Stdlib Require Import Reals Lra Lia ZArith String Ascii List.
From stdpp Require Import base gmap strings pretty.

#[local] Open Scope Z_scope.
#[local] Open Scope string_scope.

(** ** Python numerics on the reals *)

Module Py.

(** Comparisons of floats are decided on the reals. *)
#[global] Instance Rlt_decision (x y : R) : Decision (x < y)%R := Rlt_dec x y.
#[global] Instance Rle_decision (x y : R) : Decision (x <= y)%R := Rle_dec x y.
#[global] Instance Req_decision (x y : R) : Decision (x = y) := Req_dec_T x y.

(** [math.floor] on the reals. *)
Definition floor (x : R) : Z := (up x - 1)%Z.

(** Rounding to the nearest integer, ties to the even neighbour: what
    [round] does on an exactly represented half. *)
Definition round_half_even (x : R) : Z :=
  let f := floor x in
  let d := (x - IZR f)%R in
  if decide (d < 1 / 2)%R then f
  else if decide (1 / 2 < d)%R then (f + 1)%Z
  else if Z.even f then f else (f + 1)%Z.

(** [round(x, 2)]. *)
Definition round2 (x : R) : R := (IZR (round_half_even (x * 100)) / 100)%R.

(** [min(a, b)] of the builtins: the first argument unless the second is
    strictly smaller. *)
Definition min (a b : R) : R := if decide (b < a)%R then b else a.

(** [x ** y] and [np.pow(x, y)] for a float [x > 0], the only bases on
    which the two agree with a real power.  At a base that is zero or
    negative the interpreter and numpy leave the reals (a zero, a complex
    number, a nan); [catchrate_calc] tests the signs of its bases and
    reaches [pow] with positive ones only. *)
Definition pow (x y : R) : R := Rpower x y.

End Py.

(** ** Exceptions, results and the state-and-error monad

    The handlers mutate module-level dictionaries and may stop with an
    exception; what they mutated before the exception stays mutated.  A
    computation is therefore a function from the state to a result and the
    state it leaves behind. *)

Inductive exn : Type :=
| KeyError (key : string)
| ZeroDivisionError
| TypeError (msg : string)
| OverflowError.

Inductive result (A : Type) : Type :=
| Ok (a : A)
| Raise (e : exn).
Arguments Ok {A} a.
Arguments Raise {A} e.

Definition M (S A : Type) : Type := S -> result A * S.

Definition ret {S A : Type} (a : A) : M S A := fun s => (Ok a, s).

Definition raise {S A : Type} (e : exn) : M S A := fun s => (Raise e, s).

Definition bind {S A B : Type} (m : M S A) (k : A -> M S B) : M S B :=
  fun s => match m s with
           | (Ok a, s') => k a s'
           | (Raise e, s') => (Raise e, s')
           end.

Definition gets {S A : Type} (f : S -> A) : M S A := fun s => (Ok (f s), s).

Definition modify {S : Type} (f : S -> S) : M S unit := fun s => (Ok tt, f s).

(** [d[key]] on a dictionary read out of the state. *)
Definition subscript {S A : Type} (d : S -> option A) (key : string) : M S A :=
  fun s => match d s with
           | Some a => (Ok a, s)
           | None => (Raise (KeyError key), s)
           end.

Notation "x <- m ;; k" := (bind m (fun x => k))
  (at level 100, m at next level, right associativity).
Notation "m ;;; k" := (bind m (fun _ => k))
  (at level 100, right associativity).

(** The conversion of an [int] to a float, as [float * int] and
    [int / int] perform it.  The conversion rounds to the nearest double,
    ties to even; the largest double is [2^1024 - 2^971], so that from
    [2^1024 - 2^970] on the rounded value is out of range and the
    interpreter raises [OverflowError].  Below that bound the float is
    idealised as the integer itself. *)
Definition float_max_int : Z := 2 ^ 1024 - 2 ^ 970.

Definition float_of_int {S : Type} (n : Z) : M S R :=
  if decide (Z.abs n < float_max_int) then ret (IZR n)
  else raise OverflowError.

(** [n / d] on two [int]s: the correctly rounded quotient, or
    [OverflowError] when it is out of the range of a float. *)
Definition int_truediv {S : Type} (n d : Z) : M S R :=
  if decide (d = 0) then raise ZeroDivisionError
  else if decide (Z.abs n < float_max_int * Z.abs d) then ret (IZR n / IZR d)%R
  else raise OverflowError.

(** A list comprehension whose body may raise. *)
Fixpoint for_each {S A B : Type} (f : A -> M S B) (l : list A) : M S (list B) :=
  match l with
  | [] => ret []
  | x :: l' => y <- f x ;; ys <- for_each f l' ;; ret (y :: ys)
  end.

(** ** Data shared by the two variants *)

(** An entry of [pokemon_db["pokemon"]]. *)
Record pokemon_entry : Type := {
  catch_rate : R;
  times_caught : Z;
  shiny_caught : string;
  cry : string;
  sprite_regular : string;
  sprite_shiny : string
}.

Definition set_times_caught (n : Z) (p : pokemon_entry) : pokemon_entry :=
  {| catch_rate := catch_rate p; times_caught := n;
     shiny_caught := shiny_caught p; cry := cry p;
     sprite_regular := sprite_regular p; sprite_shiny := sprite_shiny p |}.

Definition set_shiny_caught (v : string) (p : pokemon_entry) : pokemon_entry :=
  {| catch_rate := catch_rate p; times_caught := times_caught p;
     shiny_caught := v; cry := cry p;
     sprite_regular := sprite_regular p; sprite_shiny := sprite_shiny p |}.

(** [html.Td(text, style=...)]: the text and the style dictionary. *)
Record Td : Type := { td_text : string; td_style : list (string * string) }.

Definition td_normal (text : string) : Td :=
  {| td_text := text; td_style := [("font-weight", "normal")] |}.

Definition td_bold (text : string) : Td :=
  {| td_text := text;
     td_style := [("color", "SteelBlue"); ("font-weight", "bold")] |}.

(** The frame [pd.DataFrame(rows, columns=["Technique", "Catch Rate"])]. *)
Definition DataFrame : Type := list (string * R).

(** [technique_dict] is iterated in insertion order, so it is an association
    list; [technique_dict[t]] is the entry of the key. *)
Fixpoint assoc (l : list (string * R)) (key : string) : option R :=
  match l with
  | [] => None
  | (k, v) :: l' => if String.eqb k key then Some v else assoc l' key
  end.

(** [s.split("-")]: the pieces between the separators, never empty. *)
Fixpoint split_dash (s : string) : list string :=
  match s with
  | EmptyString => [EmptyString]
  | String c s' =>
      if Ascii.eqb c "-"%char then EmptyString :: split_dash s'
      else match split_dash s' with
           | [] => [String c EmptyString]
           | piece :: pieces => String c piece :: pieces
           end
  end.

(** [pokemonname.split("-")[-1]]. *)
Definition display_name (pokemonname : string) : string :=
  List.last (split_dash pokemonname) EmptyString.

(** [f'Chain of {chainvalue} {pokemonname.split("-")[-1]}!']. *)
Definition chain_message (chainvalue : Z) (pokemonname : string) : string :=
  "Chain of " +:+ pretty chainvalue +:+ " " +:+ display_name pokemonname +:+ "!".

(** One event of the Dash callback: which control fired and the current
    values of the inputs. *)
Record event : Type := {
  triggered_id : option string;
  ev_pokemonname : string;
  ev_cp : Z;
  ev_ball : string;
  ev_berry : string;
  ev_shinyradio : string
}.

(** What the callback hands to the page: the four technique rows with their
    ring colours, the counter, the chain cell, the two sprites, the shiny
    flag and (in [app.py]) the cry. *)
Record row : Type := { row_label : string; row_rate : R; row_ring : string }.

Record outputs : Type := {
  out_rows : list row;
  out_numbercaught : Z;
  out_chaintext : Td;
  out_sprite_shiny : string;
  out_sprite_regular : string;
  out_shinyradio : string;
  out_cryaudio : option string
}.

(** The labels of the four output rows. *)
Definition row_labels : list string := ["None"; "Nice"; "Great"; "Excellent"].

(** [catchring_color], identical in the two files. *)
Definition catchring_color (catch_rate : R) : string :=
  let orange := 70%R in
  let yellow := 75%R in
  let green := 80%R in
  if decide (catch_rate < orange)%R then "red"
  else if bool_decide (orange <= catch_rate)%R && bool_decide (catch_rate < yellow)%R
  then "orange"
  else if bool_decide (yellow <= catch_rate)%R && bool_decide (catch_rate < green)%R
  then "gold"
  else "green".

(** [techniquerate_df["Catch Rate"][i]]: subscripting [None] is a
    [TypeError], a missing label a [KeyError]. *)
Definition catch_rate_at {S : Type} (df : option DataFrame) (i : nat) : M S R :=
  match df with
  | None => raise (TypeError "'NoneType' object is not subscriptable")
  | Some rows =>
      match rows !! i with
      | Some (_, r) => ret r
      | None => raise (KeyError (pretty i))
      end
  end.

(** ** [app.py]: the multiplicative variant *)

Module App.

(** [pokemon_db["letsgochain"]], loaded from the database file. *)
Record letsgochain : Type := {
  chain_pokemonname : string;
  chain_chainvalue : Z;
  chain_chaintext : string
}.

(** The module-level variables the functions read and write. *)
Record state : Type := {
  pokemon_dict : gmap string pokemon_entry;
  ballrate_dict : gmap string R;
  technique_dict : list (string * R);
  berry_dict : gmap string R;
  pokemonchain_dict : letsgochain;
  chaintext : Td;
  INIT_STATE : bool;
  stdout : list string
}.

Definition with_pokemon_dict (d : gmap string pokemon_entry) (st : state) : state :=
  {| pokemon_dict := d; ballrate_dict := ballrate_dict st;
     technique_dict := technique_dict st; berry_dict := berry_dict st;
     pokemonchain_dict := pokemonchain_dict st; chaintext := chaintext st;
     INIT_STATE := INIT_STATE st; stdout := stdout st |}.

Definition with_pokemonchain_dict (c : letsgochain) (st : state) : state :=
  {| pokemon_dict := pokemon_dict st; ballrate_dict := ballrate_dict st;
     technique_dict := technique_dict st; berry_dict := berry_dict st;
     pokemonchain_dict := c; chaintext := chaintext st;
     INIT_STATE := INIT_STATE st; stdout := stdout st |}.

Definition with_chaintext (t : Td) (st : state) : state :=
  {| pokemon_dict := pokemon_dict st; ballrate_dict := ballrate_dict st;
     technique_dict := technique_dict st; berry_dict := berry_dict st;
     pokemonchain_dict := pokemonchain_dict st; chaintext := t;
     INIT_STATE := INIT_STATE st; stdout := stdout st |}.

Definition with_INIT_STATE (b : bool) (st : state) : state :=
  {| pokemon_dict := pokemon_dict st; ballrate_dict := ballrate_dict st;
     technique_dict := technique_dict st; berry_dict := berry_dict st;
     pokemonchain_dict := pokemonchain_dict st; chaintext := chaintext st;
     INIT_STATE := b; stdout := stdout st |}.

(** [print(line)]. *)
Definition print (line : string) : M state unit :=
  modify (fun st =>
    {| pokemon_dict := pokemon_dict st; ballrate_dict := ballrate_dict st;
       technique_dict := technique_dict st; berry_dict := berry_dict st;
       pokemonchain_dict := pokemonchain_dict st; chaintext := chaintext st;
       INIT_STATE := INIT_STATE st; stdout := stdout st ++ [line] |}).

(** The value of the denominator
    [(100 - times_caught) / 100 * combat_power + 1], with [times_caught]
    already capped, once its two conversions of an [int] to a float have
    succeeded; [catchrate_calc] performs them before it uses the value. *)
Definition cp_denominator (times_caught combat_power : Z) : R :=
  (IZR (100 - times_caught) / 100 * IZR combat_power + 1)%R.

(** The value bound to [a] when the four bases are positive. *)
Definition scale_factor (catch_rate den ball technique berry : R) : R :=
  (1.25
   * Py.pow catch_rate (1 / 1.85)
   * Py.pow (10000 / den) (1 / 4)
   * Py.pow ball (3 / 2)
   * Py.pow (technique * berry) (1 / 2))%R.

(** The value bound to [b]. *)
Definition residual (a : R) : R := (65535 / Py.pow (255 / a) (1 / 5.33))%R.

(** The last three statements of [catchrate_calc]. *)
Definition percent (b : R) : R :=
  let catch_rate := (b / 65535 * 100)%R in
  let catch_rate := Py.min 100 catch_rate in
  Py.round2 catch_rate.

(** The nested function [catchrate_calc(technique)] with the variables it
    closes over made arguments.

    The denominator converts two [int]s to floats, the capped difference in
    [(100 - times_caught) / 100] and then [combat_power] in the product
    (also when the other factor is [0.0]); either conversion may raise
    [OverflowError].  A zero denominator stops the Python float division
    with [ZeroDivisionError].

    The four bases handed to [np.pow] are the base rate, [10000 / den], the
    ball multiplier and the product of the technique and berry multipliers.
    [np.pow] of a negative base to one of these exponents is nan (with a
    warning, not an exception); nan survives every later operation, also a
    product with zero, and [min(100, nan)] answers with its first argument.
    [np.pow] of a zero base is [0.0]; [a] is then [0.0], [255 / a] is a
    numpy division and yields inf, so that [b] and the rate are [0.0]. *)
Definition catchrate_calc (pokemon : string) (combat_power : Z)
    (ball berry technique : string) : M state R :=
  entry <- subscript (fun st => pokemon_dict st !! pokemon) pokemon ;;
  let times_caught := Z.min 100 (times_caught entry) in
  int_truediv (100 - times_caught) 100 ;;;
  float_of_int combat_power ;;;
  let den := cp_denominator times_caught combat_power in
  if decide (den = 0%R) then raise ZeroDivisionError
  else
    ball_rate <- subscript (fun st => ballrate_dict st !! ball) ball ;;
    technique_rate <- subscript (fun st => assoc (technique_dict st) technique) technique ;;
    berry_rate <- subscript (fun st => berry_dict st !! berry) berry ;;
    if decide (catch_rate entry < 0 \/ den < 0 \/ ball_rate < 0
               \/ technique_rate * berry_rate < 0)%R
    then ret 100%R
    else if decide (catch_rate entry = 0 \/ ball_rate = 0
                    \/ technique_rate * berry_rate = 0)%R
    then ret 0%R
    else
      let a := scale_factor (catch_rate entry) den ball_rate technique_rate berry_rate in
      let b := residual a in
      ret (percent b).

(** [catch_pokemon]: [None] after a printed message when the species, the
    ball or the berry is unknown, otherwise one row per technique. *)
Definition catch_pokemon (pokemon : string) (combat_power : Z)
    (ball berry : string) : M state (option DataFrame) :=
  known_pokemon <- gets (fun st => bool_decide (is_Some (pokemon_dict st !! pokemon))) ;;
  if negb known_pokemon then print "Pokemon not found" ;;; ret None
  else
    known_ball <- gets (fun st => bool_decide (is_Some (ballrate_dict st !! ball))) ;;
    if negb known_ball then print "Ball not found" ;;; ret None
    else
      known_berry <- gets (fun st => bool_decide (is_Some (berry_dict st !! berry))) ;;
      if negb known_berry then print "Berry not found" ;;; ret None
      else
        techniques <- gets (fun st => technique_dict st) ;;
        rows <- for_each
                  (fun technique : string * R =>
                     r <- catchrate_calc pokemon combat_power ball berry technique.1 ;;
                     ret (technique.1, r))
                  techniques ;;
        ret (Some rows).

(** [get_sprite]: the URL looked up; the image fetched from it is the
    renderer's business. *)
Definition get_sprite (pokemon : string) (shiny : bool) : M state string :=
  entry <- subscript (fun st => pokemon_dict st !! pokemon) pokemon ;;
  ret (if shiny then sprite_shiny entry else sprite_regular entry).

(** [triggers_handler]; its only caller passes [ctx.triggered_id] as
    [trigger], so the three tests read the same value.  The rewrite of the
    two JSON files that ends it is not modelled. *)
Definition triggers_handler (trigger : option string) (pokemonname : string)
    (shinyradio : string) : M state unit :=
  if decide (trigger = Some "add1_btn") then
    entry <- subscript (fun st => pokemon_dict st !! pokemonname) pokemonname ;;
    modify (fun st =>
      with_pokemon_dict
        (<[pokemonname := set_times_caught (times_caught entry + 1) entry]>
           (pokemon_dict st)) st) ;;;
    chain <- gets pokemonchain_dict ;;
    let chain :=
      if negb (String.eqb (chain_pokemonname chain) pokemonname)
      then {| chain_pokemonname := pokemonname; chain_chainvalue := 0;
              chain_chaintext := chain_chaintext chain |}
      else chain in
    let chainvalue := chain_chainvalue chain + 1 in
    let text := chain_message chainvalue pokemonname in
    modify (with_pokemonchain_dict
              {| chain_pokemonname := chain_pokemonname chain;
                 chain_chainvalue := chainvalue;
                 chain_chaintext := text |}) ;;;
    modify (with_chaintext (td_bold text))
  else if decide (trigger = Some "resetchain_btn") then
    chain <- gets pokemonchain_dict ;;
    modify (with_pokemonchain_dict
              {| chain_pokemonname := chain_pokemonname chain;
                 chain_chainvalue := 0;
                 chain_chaintext := "No chain" |}) ;;;
    modify (with_chaintext (td_normal "No chain"))
  else if decide (trigger = Some "shinyradio") then
    entry <- subscript (fun st => pokemon_dict st !! pokemonname) pokemonname ;;
    modify (fun st =>
      with_pokemon_dict
        (<[pokemonname := set_shiny_caught shinyradio entry]> (pokemon_dict st)) st)
  else ret tt.

(** The four cells [html.Td(f'{label} {rate}%', style={"border": ring})]. *)
Definition technique_rows (df : option DataFrame) : M state (list row) :=
  rings <- for_each
             (fun i : nat => r <- catch_rate_at df i ;; ret (catchring_color r))
             (seq 0 4) ;;
  for_each
    (fun cell : nat * (string * string) =>
       r <- catch_rate_at df cell.1 ;;
       ret {| row_label := cell.2.1; row_rate := r; row_ring := cell.2.2 |})
    (zip (seq 0 4) (zip row_labels rings)).

(** The callback [update_catchrates] on one event. *)
Definition update_catchrates (ev : event) : M state outputs :=
  let pokemonname := ev_pokemonname ev in
  init <- gets INIT_STATE ;;
  (if init then
     text <- gets (fun st => chain_chaintext (pokemonchain_dict st)) ;;
     modify (with_chaintext (td_bold text)) ;;;
     modify (with_INIT_STATE false)
   else ret tt) ;;;
  triggers_handler (triggered_id ev) pokemonname (ev_shinyradio ev) ;;;
  entry <- subscript (fun st => pokemon_dict st !! pokemonname) pokemonname ;;
  let shinyradio := shiny_caught entry in
  let cryaudio := cry entry in
  sprite_regular <- get_sprite pokemonname false ;;
  sprite_shiny <- get_sprite pokemonname true ;;
  techniquerate_df <- catch_pokemon pokemonname (ev_cp ev) (ev_ball ev) (ev_berry ev) ;;
  rows <- technique_rows techniquerate_df ;;
  entry <- subscript (fun st => pokemon_dict st !! pokemonname) pokemonname ;;
  cell <- gets chaintext ;;
  ret {| out_rows := rows;
         out_numbercaught := times_caught entry;
         out_chaintext := cell;
         out_sprite_shiny := sprite_regular;
         out_sprite_regular := sprite_shiny;
         out_shinyradio := shinyradio;
         out_cryaudio := Some cryaudio |}.

End App.

(** ** [pokemon_catchrate.py]: the additive variant *)

Module Legacy.

(** The module-level [chain_dict]. *)
Record chain : Type := {
  chaintext_init : Td;
  chaintext : Td;
  current_catch : string;
  last_catch : string;
  chainvalue : Z
}.

(** [chain_dict] as the module creates it. *)
Definition chain_dict_init : chain :=
  {| chaintext_init := td_normal "No chain";
     chaintext := td_normal "No chain";
     current_catch := "";
     last_catch := "";
     chainvalue := 0 |}.

Record state : Type := {
  pokemon_dict : gmap string pokemon_entry;
  ballrate_dict : gmap string R;
  technique_dict : list (string * R);
  berry_dict : gmap string R;
  chain_dict : chain;
  stdout : list string
}.

Definition with_pokemon_dict (d : gmap string pokemon_entry) (st : state) : state :=
  {| pokemon_dict := d; ballrate_dict := ballrate_dict st;
     technique_dict := technique_dict st; berry_dict := berry_dict st;
     chain_dict := chain_dict st; stdout := stdout st |}.

Definition with_chain_dict (c : chain) (st : state) : state :=
  {| pokemon_dict := pokemon_dict st; ballrate_dict := ballrate_dict st;
     technique_dict := technique_dict st; berry_dict := berry_dict st;
     chain_dict := c; stdout := stdout st |}.

Definition print (line : string) : M state unit :=
  modify (fun st =>
    {| pokemon_dict := pokemon_dict st; ballrate_dict := ballrate_dict st;
       technique_dict := technique_dict st; berry_dict := berry_dict st;
       chain_dict := chain_dict st; stdout := stdout st ++ [line] |}).

(** The value of the denominator once its two conversions of an [int] to
    a float have succeeded. *)
Definition cp_denominator (times_caught combat_power : Z) : R :=
  (IZR (100 - times_caught) / 100 * IZR combat_power + 1)%R.

(** The value bound to [a] when the four bases are positive: technique and
    berry are added. *)
Definition scale_factor (catch_rate den ball technique berry : R) : R :=
  (1.25 * Py.pow catch_rate (1 / 1.85)
   * Py.pow (10000 / den) (1 / 4)
   * Py.pow ball (3 / 2)
   * Py.pow (technique + berry) (1 / 2))%R.

(** The value bound to [b]. *)
Definition residual (a : R) : R := (65535 / Py.pow a (5 / 16))%R.

Definition percent (b : R) : R :=
  let catch_rate := ((1 - b / 65536) * 100)%R in
  let catch_rate := Py.min 100 catch_rate in
  Py.round2 catch_rate.

(** [catchrate_calc(technique)].

    The two conversions of an [int] to a float in the denominator may
    raise [OverflowError], and a zero denominator stops the division with
    [ZeroDivisionError], as in [app.py].

    The four bases of [**] are the base rate, [10000 / den], the ball
    multiplier and the sum of the technique and berry multipliers.  A zero
    base gives [0.0], a negative base a complex number that is not zero.
    If some base is zero, [a] is a zero (the float [0.0], or [0j] when
    another base is negative), [a ** (5 / 16)] is that zero again and
    [65535 / ...] raises [ZeroDivisionError].  Otherwise, if some base is
    negative, [a], [b] and the rate are complex and [min(100, catch_rate)]
    cannot compare them. *)
Definition catchrate_calc (pokemon : string) (combat_power : Z)
    (ball berry technique : string) : M state R :=
  entry <- subscript (fun st => pokemon_dict st !! pokemon) pokemon ;;
  let times_caught := Z.min 100 (times_caught entry) in
  int_truediv (100 - times_caught) 100 ;;;
  float_of_int combat_power ;;;
  let den := cp_denominator times_caught combat_power in
  if decide (den = 0%R) then raise ZeroDivisionError
  else
    ball_rate <- subscript (fun st => ballrate_dict st !! ball) ball ;;
    technique_rate <- subscript (fun st => assoc (technique_dict st) technique) technique ;;
    berry_rate <- subscript (fun st => berry_dict st !! berry) berry ;;
    if decide (catch_rate entry = 0 \/ ball_rate = 0
               \/ technique_rate + berry_rate = 0)%R
    then raise ZeroDivisionError
    else if decide (catch_rate entry < 0 \/ den < 0 \/ ball_rate < 0
                    \/ technique_rate + berry_rate < 0)%R
    then raise (TypeError "'<' not supported between instances of 'complex' and 'int'")
    else
      let a := scale_factor (catch_rate entry) den ball_rate technique_rate berry_rate in
      let b := residual a in
      ret (percent b).

Definition catch_pokemon (pokemon : string) (combat_power : Z)
    (ball berry : string) : M state (option DataFrame) :=
  known_pokemon <- gets (fun st => bool_decide (is_Some (pokemon_dict st !! pokemon))) ;;
  if negb known_pokemon then print "Pokemon not found" ;;; ret None
  else
    known_ball <- gets (fun st => bool_decide (is_Some (ballrate_dict st !! ball))) ;;
    if negb known_ball then print "Ball not found" ;;; ret None
    else
      known_berry <- gets (fun st => bool_decide (is_Some (berry_dict st !! berry))) ;;
      if negb known_berry then print "Berry not found" ;;; ret None
      else
        techniques <- gets (fun st => technique_dict st) ;;
        rows <- for_each
                  (fun technique : string * R =>
                     r <- catchrate_calc pokemon combat_power ball berry technique.1 ;;
                     ret (technique.1, r))
                  techniques ;;
        ret (Some rows).

Definition get_sprite (pokemon : string) (shiny : bool) : M state string :=
  entry <- subscript (fun st => pokemon_dict st !! pokemon) pokemon ;;
  ret (if shiny then sprite_shiny entry else sprite_regular entry).

(** The [# Triggers] block of [update_catchrates]; the database file it
    rewrites is not modelled. *)
Definition update_catchrates_triggers (trigger : option string)
    (pokemonname : string) (shinyradio : string) : M state unit :=
  if decide (trigger = Some "add1_btn") then
    entry <- subscript (fun st => pokemon_dict st !! pokemonname) pokemonname ;;
    modify (fun st =>
      with_pokemon_dict
        (<[pokemonname := set_times_caught (times_caught entry + 1) entry]>
           (pokemon_dict st)) st) ;;;
    c <- gets chain_dict ;;
    let current := pokemonname in
    let reset := negb (String.eqb (last_catch c) current) in
    let value := (if reset then 0 else chainvalue c) + 1 in
    let last := if reset then pokemonname else last_catch c in
    let text :=
      if decide (value > 0) then td_bold (chain_message value pokemonname)
      else chaintext_init c in
    modify (with_chain_dict
              {| chaintext_init := chaintext_init c; chaintext := text;
                 current_catch := current; last_catch := last;
                 chainvalue := value |})
  else if decide (trigger = Some "resetchain_btn") then
    c <- gets chain_dict ;;
    modify (with_chain_dict
              {| chaintext_init := chaintext_init c;
                 chaintext := chaintext_init c;
                 current_catch := current_catch c; last_catch := last_catch c;
                 chainvalue := 0 |})
  else if decide (trigger = Some "shinyradio") then
    entry <- subscript (fun st => pokemon_dict st !! pokemonname) pokemonname ;;
    modify (fun st =>
      with_pokemon_dict
        (<[pokemonname := set_shiny_caught shinyradio entry]> (pokemon_dict st)) st)
  else ret tt.

Definition technique_rows (df : option DataFrame) : M state (list row) :=
  rings <- for_each
             (fun i : nat => r <- catch_rate_at df i ;; ret (catchring_color r))
             (seq 0 4) ;;
  for_each
    (fun cell : nat * (string * string) =>
       r <- catch_rate_at df cell.1 ;;
       ret {| row_label := cell.2.1; row_rate := r; row_ring := cell.2.2 |})
    (zip (seq 0 4) (zip row_labels rings)).

(** The callback [update_catchrates] on one event. *)
Definition update_catchrates (ev : event) : M state outputs :=
  let pokemonname := ev_pokemonname ev in
  update_catchrates_triggers (triggered_id ev) pokemonname (ev_shinyradio ev) ;;;
  entry <- subscript (fun st => pokemon_dict st !! pokemonname) pokemonname ;;
  let shinyradio := shiny_caught entry in
  sprite_regular <- get_sprite pokemonname false ;;
  sprite_shiny <- get_sprite pokemonname true ;;
  techniquerate_df <- catch_pokemon pokemonname (ev_cp ev) (ev_ball ev) (ev_berry ev) ;;
  rows <- technique_rows techniquerate_df ;;
  entry <- subscript (fun st => pokemon_dict st !! pokemonname) pokemonname ;;
  cell <- gets (fun st => chaintext (chain_dict st)) ;;
  ret {| out_rows := rows;
         out_numbercaught := times_caught entry;
         out_chaintext := cell;
         out_sprite_shiny := sprite_regular;
         out_sprite_regular := sprite_shiny;
         out_shinyradio := shinyradio;
         out_cryaudio := None |}.

(** The server keeps serving after a callback raised: the state an event
    leaves behind is the state the next event starts from. *)
Definition step (st : state) (ev : event) : state := (update_catchrates ev st).2.

Definition run (evs : list event) (st : state) : state := fold_left step evs st.

(** The states the process can be in: it starts with [chain_dict] as the
    module creates it and whatever the database file holds, and handles
    events one at a time. *)
Definition reachable (st : state) : Prop :=
  exists (st0 : state) (evs : list event),
    chain_dict st0 = chain_dict_init /\ st = run evs st0.

End Legacy.

(** ** Valid inputs and an example database

    The specification's precondition of the rate computation: the four
    identifiers resolve, the table entries are positive and the counter is
    not negative.  That the combat power is positive is a hypothesis of its
    own where it is needed. *)

Record resolved (pokemons : gmap string pokemon_entry) (balls : gmap string R)
    (techniques : list (string * R)) (berries : gmap string R)
    (pokemon ball berry technique : string)
    (entry : pokemon_entry) (ball_rate technique_rate berry_rate : R) : Prop := {
  resolved_pokemon : pokemons !! pokemon = Some entry;
  resolved_ball : balls !! ball = Some ball_rate;
  resolved_technique : assoc techniques technique = Some technique_rate;
  resolved_berry : berries !! berry = Some berry_rate;
  positive_catch_rate : (0 < catch_rate entry)%R;
  positive_ball : (0 < ball_rate)%R;
  positive_technique : (0 < technique_rate)%R;
  positive_berry : (0 < berry_rate)%R;
  counted : 0 <= times_caught entry
}.

(** The reals stand for floats and leave the range of a float out.  In
    [app.py] numpy answers an overflow or an underflow with inf or [0.0]
    and goes on; in [pokemon_catchrate.py] a power that overflows raises
    and one that underflows makes [a] a zero.  With every table entry
    between a millionth and a million, and a combat power that converts to
    a float, every intermediate value of either formula stays far inside
    the range; the statements that [pokemon_catchrate.py] returns a value,
    and those that give the value [app.py] returns in closed form, are made
    for such entries. *)
Definition moderate (x : R) : Prop := (1 / 1000000 <= x <= 1000000)%R.

Record moderate_entries (entry : pokemon_entry)
    (ball_rate technique_rate berry_rate : R) : Prop := {
  moderate_catch_rate : moderate (catch_rate entry);
  moderate_ball : moderate ball_rate;
  moderate_technique : moderate technique_rate;
  moderate_berry : moderate berry_rate
}.

Definition example_entry (rate : R) (caught : Z) : pokemon_entry :=
  {| catch_rate := rate; times_caught := caught; shiny_caught := "No";
     cry := "cry.ogg"; sprite_regular := "regular.png"; sprite_shiny := "shiny.png" |}.

(** A small database in the shape of [pokemon_db]; the multipliers are
    illustrative. *)
Definition example_pokemon : gmap string pokemon_entry :=
  {[ "pikachu" := example_entry 190 0;
     "mewtwo" := example_entry 3 0;
     "alola-raichu" := example_entry 75 120 ]}.

Definition example_balls : gmap string R :=
  {[ "pokeball" := 1%R; "greatball" := 1.5%R; "ultraball" := 2%R ]}.

Definition example_techniques : list (string * R) :=
  [("None", 1%R); ("Nice", 1.1%R); ("Great", 1.3%R); ("Excellent", 1.5%R)].

Definition example_berries : gmap string R :=
  {[ "none" := 1%R; "razz" := 1.5%R ]}.

Definition app_example : App.state :=
  {| App.pokemon_dict := example_pokemon;
     App.ballrate_dict := example_balls;
     App.technique_dict := example_techniques;
     App.berry_dict := example_berries;
     App.pokemonchain_dict :=
       {| App.chain_pokemonname := "pikachu"; App.chain_chainvalue := 2;
          App.chain_chaintext := "Chain of 2 pikachu!" |};
     App.chaintext := td_normal "No chain";
     App.INIT_STATE := true;
     App.stdout := [] |}.

Definition legacy_example : Legacy.state :=
  {| Legacy.pokemon_dict := example_pokemon;
     Legacy.ballrate_dict := example_balls;
     Legacy.technique_dict := example_techniques;
     Legacy.berry_dict := example_berries;
     Legacy.chain_dict := Legacy.chain_dict_init;
     Legacy.stdout := [] |}.

(** The state in which the stored counter of [pokemon] is [v]. *)
Definition with_counter (st : App.state) (pokemon : string) (entry : pokemon_entry)
    (v : Z) : App.state :=
  App.with_pokemon_dict (<[pokemon := set_times_caught v entry]> (App.pokemon_dict st)) st.

(** A computation preserves a property of the state when the state it
    leaves behind has it whenever the state it started from had it, whether
    it returned or raised. *)
Definition preserves {S A : Type} (P : S -> Prop) (m : M S A) : Prop :=
  forall s, P s -> P (m s).2.

(** The cell kept under [chain_dict["chaintext_init"]] is [v]. *)
Definition keeps_chaintext_init (v : Td) (st : Legacy.state) : Prop :=
  Legacy.chaintext_init (Legacy.chain_dict st) = v.

(** A value [x] is shown as [v] when it is within half a unit of the last
    digit shown. *)
Definition shown_as (unit x v : R) : Prop := (Rabs (x - v) <= unit / 2)%R.

(** ** Event sequences and what they count *)

(** [app.py] is served like [pokemon_catchrate.py]: the state an event
    leaves behind, returned or raised, is the state of the next event. *)
Definition app_step (st : App.state) (ev : event) : App.state :=
  (App.update_catchrates ev st).2.

Definition app_run (evs : list event) (st : App.state) : App.state :=
  fold_left app_step evs st.

(** The event is a click on [+] with [pokemon] selected. *)
Definition is_capture_of (pokemon : string) (ev : event) : bool :=
  bool_decide (triggered_id ev = Some "add1_btn")
  && String.eqb (ev_pokemonname ev) pokemon.

Definition captures_of (pokemon : string) (evs : list event) : Z :=
  Z.of_nat (length (List.filter (is_capture_of pokemon) evs)).

(** [pokemon_dict[pokemon]["times_caught"]], when the key is there. *)
Definition counter_of (d : gmap string pokemon_entry) (pokemon : string) : option Z :=
  times_caught <$> d !! pokemon.

(** The first statements of [update_catchrates] in [app.py]: on the first
    event the chain cell is made from the stored chain text. *)
Definition app_after_init (st : App.state) : App.state :=
  if App.INIT_STATE st
  then App.with_INIT_STATE false
         (App.with_chaintext
            (td_bold (App.chain_chaintext (App.pokemonchain_dict st))) st)
  else st.

(** What a species entry holds besides its counter and its shiny flag. *)
Definition static_fields (entry : pokemon_entry) : R * string * string * string :=
  (catch_rate entry, cry entry, sprite_regular entry, sprite_shiny entry).

(** What the process only reads: the three multiplier tables and, per
    species, the fields that are not the counter or the shiny flag. *)
Definition app_tables (st : App.state)
    : gmap string R * list (string * R) * gmap string R
      * gmap string (R * string * string * string) :=
  (App.ballrate_dict st, App.technique_dict st, App.berry_dict st,
   static_fields <$> App.pokemon_dict st).

Definition legacy_tables (st : Legacy.state)
    : gmap string R * list (string * R) * gmap string R
      * gmap string (R * string * string * string) :=
  (Legacy.ballrate_dict st, Legacy.technique_dict st, Legacy.berry_dict st,
   static_fields <$> Legacy.pokemon_dict st).

(** The stored streak and the stored chain text of [app.py] agree: no
    streak and the sentinel text, or a streak and its message. *)
Definition app_chain_consistent (c : App.letsgochain) : Prop :=
  (App.chain_chainvalue c = 0 /\ App.chain_chaintext c = "No chain")
  \/ (1 <= App.chain_chainvalue c
      /\ App.chain_chaintext c
         = chain_message (App.chain_chainvalue c) (App.chain_pokemonname c)).

(** The same for [chain_dict] of [pokemon_catchrate.py], whose cells carry
    their style. *)
Definition legacy_chain_consistent (c : Legacy.chain) : Prop :=
  (Legacy.chainvalue c = 0 /\ Legacy.chaintext c = td_normal "No chain")
  \/ (1 <= Legacy.chainvalue c
      /\ Legacy.chaintext c
         = td_bold (chain_message (Legacy.chainvalue c) (Legacy.last_catch c))).

(** The event a click on [+] with [pokemon] selected sends. *)
Definition capture_event (pokemon : string) (cp : Z) (ball berry : string) : event :=
  {| triggered_id := Some "add1_btn"; ev_pokemonname := pokemon; ev_cp := cp;
     ev_ball := ball; ev_berry := berry; ev_shinyradio := "No" |}.

(** The string has a ["-"] in it. *)
Fixpoint contains_dash (s : string) : bool :=
  match s with
  | EmptyString => false
  | String c s' => Ascii.eqb c "-"%char || contains_dash s'
  end.

(** The ring colours from the lowest tier to the highest. *)
Definition tier_rank (color : string) : nat :=
  if String.eqb color "red" then 0
  else if String.eqb color "orange" then 1
  else if String.eqb color "gold" then 2
  else 3.


(** The statements of [update_catchrates] that follow the trigger block, in
    [app.py] and in [pokemon_catchrate.py]. *)
Definition app_update_tail (ev : event) : M App.state outputs :=
  entry <- subscript (fun st => App.pokemon_dict st !! ev_pokemonname ev)
             (ev_pokemonname ev) ;;
  sprite_regular <- App.get_sprite (ev_pokemonname ev) false ;;
  sprite_shiny <- App.get_sprite (ev_pokemonname ev) true ;;
  techniquerate_df <- App.catch_pokemon (ev_pokemonname ev) (ev_cp ev) (ev_ball ev)
                        (ev_berry ev) ;;
  rows <- App.technique_rows techniquerate_df ;;
  entry' <- subscript (fun st => App.pokemon_dict st !! ev_pokemonname ev)
              (ev_pokemonname ev) ;;
  cell <- gets App.chaintext ;;
  ret {| out_rows := rows;
         out_numbercaught := times_caught entry';
         out_chaintext := cell;
         out_sprite_shiny := sprite_regular;
         out_sprite_regular := sprite_shiny;
         out_shinyradio := shiny_caught entry;
         out_cryaudio := Some (cry entry) |}.

Definition legacy_update_tail (ev : event) : M Legacy.state outputs :=
  entry <- subscript (fun st => Legacy.pokemon_dict st !! ev_pokemonname ev)
             (ev_pokemonname ev) ;;
  sprite_regular <- Legacy.get_sprite (ev_pokemonname ev) false ;;
  sprite_shiny <- Legacy.get_sprite (ev_pokemonname ev) true ;;
  techniquerate_df <- Legacy.catch_pokemon (ev_pokemonname ev) (ev_cp ev) (ev_ball ev)
                        (ev_berry ev) ;;
  rows <- Legacy.technique_rows techniquerate_df ;;
  entry' <- subscript (fun st => Legacy.pokemon_dict st !! ev_pokemonname ev)
              (ev_pokemonname ev) ;;
  cell <- gets (fun st => Legacy.chaintext (Legacy.chain_dict st)) ;;
  ret {| out_rows := rows;
         out_numbercaught := times_caught entry';
         out_chaintext := cell;
         out_sprite_shiny := sprite_regular;
         out_sprite_regular := sprite_shiny;
         out_shinyradio := shiny_caught entry;
         out_cryaudio := None |}.

(** The event is a click on the shiny radio with [pokemon] selected. *)
Definition is_shiny_of (pokemon : string) (ev : event) : bool :=
  bool_decide (triggered_id ev = Some "shinyradio")
  && String.eqb (ev_pokemonname ev) pokemon.

(** The radio value of the last such event of a sequence, [flag] if there
    is none. *)
Definition shiny_after (pokemon : string) (evs : list event) (flag : string) : string :=
  fold_left (fun v ev => if is_shiny_of pokemon ev then ev_shinyradio ev else v) evs flag.

(** [pokemon_dict[pokemon]["shiny_caught"]], when the key is there. *)
Definition shiny_of (d : gmap string pokemon_entry) (pokemon : string) : option string :=
  shiny_caught <$> d !! pokemon.

(** The state of [pokemon_catchrate.py] in which the stored counter of
    [pokemon] is [v]. *)
Definition legacy_with_counter (st : Legacy.state) (pokemon : string)
    (entry : pokemon_entry) (v : Z) : Legacy.state :=
  Legacy.with_pokemon_dict
    (<[pokemon := set_times_caught v entry]> (Legacy.pokemon_dict st)) st.



(** ** Facts about the numeric primitives *)

Section PyFacts.

#[local] Open Scope R_scope.

Lemma floor_spec (x : R) : IZR (Py.floor x) <= x < IZR (Py.floor x) + 1.
Proof.
  unfold Py.floor. rewrite minus_IZR.
  destruct (archimed x) as [Hgt Hle]. lra.
Qed.

Lemma floor_unique (x : R) (n : Z) : IZR n <= x < IZR n + 1 -> Py.floor x = n.
Proof.
  intros [Hlo Hhi]. destruct (floor_spec x) as [Flo Fhi].
  assert (H1 : (Py.floor x < n + 1)%Z).
  { apply lt_IZR. rewrite plus_IZR. lra. }
  assert (H2 : (n < Py.floor x + 1)%Z).
  { apply lt_IZR. rewrite plus_IZR. lra. }
  lia.
Qed.

Lemma floor_IZR (n : Z) : Py.floor (IZR n) = n.
Proof. apply floor_unique. lra. Qed.



Lemma round_half_even_IZR (n : Z) : Py.round_half_even (IZR n) = n.
Proof.
  unfold Py.round_half_even. cbv zeta. rewrite floor_IZR.
  destruct (decide _) as [_ | Hn]; [reflexivity | lra].
Qed.


Lemma round_half_even_near (x : R) (n : Z) :
  IZR n - 1 / 2 < x < IZR n + 1 / 2 -> Py.round_half_even x = n.
Proof.
  intros [Hlo Hhi]. unfold Py.round_half_even. cbv zeta.
  destruct (Rlt_le_dec x (IZR n)) as [Hlt | Hge].
  - assert (Hf : Py.floor x = (n - 1)%Z).
    { apply floor_unique. rewrite minus_IZR. lra. }
    rewrite Hf, minus_IZR.
    destruct (decide _) as [H1 | H1]; [lra |].
    destruct (decide _) as [H2 | H2]; [lia | lra].
  - assert (Hf : Py.floor x = n) by (apply floor_unique; lra).
    rewrite Hf. destruct (decide _) as [H1 | H1]; [reflexivity | lra].
Qed.


Lemma round2_cents (n : Z) : Py.round2 (IZR n / 100) = IZR n / 100.
Proof.
  unfold Py.round2. replace (IZR n / 100 * 100) with (IZR n) by lra.
  now rewrite round_half_even_IZR.
Qed.

Lemma round2_near (x : R) (n : Z) :
  IZR n / 100 - 5 / 1000 < x < IZR n / 100 + 5 / 1000 -> Py.round2 x = IZR n / 100.
Proof.
  intros H. unfold Py.round2. rewrite (round_half_even_near (x * 100) n); [reflexivity | lra].
Qed.







Lemma min_r (a b : R) : b < a -> Py.min a b = b.
Proof. unfold Py.min. destruct (decide _); [reflexivity | lra]. Qed.

Lemma min_l (a b : R) : a <= b -> Py.min a b = a.
Proof. unfold Py.min. destruct (decide _); [lra | reflexivity]. Qed.

Lemma pow_pos (x y : R) : 0 < Py.pow x y.
Proof. unfold Py.pow, Rpower. apply exp_pos. Qed.

Lemma pow_mono (x y e : R) : 0 <= e -> 0 < x -> x <= y -> Py.pow x e <= Py.pow y e.
Proof. intros He Hx Hxy. unfold Py.pow. apply Rle_Rpower_l; lra. Qed.

End PyFacts.

(** ** Bounding a power with a rational exponent by integer arithmetic

    [x ** (p/q)] is the [q]-th root of [x ^ p], so a rational bound on it is
    a comparison of two integers. *)

Section RationalPowers.

#[local] Open Scope R_scope.

Lemma pow_root (x e : R) (p q : nat) :
  0 < x -> e * INR q = INR p -> Py.pow x e ^ q = x ^ p.
Proof.
  intros Hx He.
  rewrite <- (Rpower_pow q) by apply pow_pos.
  unfold Py.pow. rewrite Rpower_mult, He. now apply Rpower_pow.
Qed.

Lemma nat_pow_lt (a b : R) (q : nat) : (0 < q)%nat -> 0 < a < b -> a ^ q < b ^ q.
Proof.
  intros Hq [Ha Hab].
  rewrite <- !Rpower_pow by lra.
  apply Rlt_Rpower_l; [| lra].
  apply lt_0_INR. lia.
Qed.

Lemma pow_ge (x e l : R) (p q : nat) :
  0 < x -> 0 < l -> (0 < q)%nat -> e * INR q = INR p ->
  l ^ q <= x ^ p -> l <= Py.pow x e.
Proof.
  intros Hx Hl Hq He Hle.
  destruct (Rle_lt_dec l (Py.pow x e)) as [Hok | Hlt]; [exact Hok | exfalso].
  pose proof (nat_pow_lt (Py.pow x e) l q Hq (conj (pow_pos x e) Hlt)) as H.
  rewrite (pow_root x e p q Hx He) in H. lra.
Qed.

Lemma pow_le (x e u : R) (p q : nat) :
  0 < x -> 0 < u -> (0 < q)%nat -> e * INR q = INR p ->
  x ^ p <= u ^ q -> Py.pow x e <= u.
Proof.
  intros Hx Hu Hq He Hle.
  destruct (Rle_lt_dec (Py.pow x e) u) as [Hok | Hlt]; [exact Hok | exfalso].
  pose proof (nat_pow_lt u (Py.pow x e) q Hq (conj Hu Hlt)) as H.
  rewrite (pow_root x e p q Hx He) in H. lra.
Qed.

Lemma ratio_pow (n d : Z) (k : nat) :
  (0 < d)%Z -> (IZR n / IZR d) ^ k = IZR (n ^ Z.of_nat k) / IZR (d ^ Z.of_nat k).
Proof.
  intros Hd. assert (IZR d <> 0) by (apply not_0_IZR; lia).
  unfold Rdiv. rewrite Rpow_mult_distr, pow_inv, !pow_IZR. reflexivity.
Qed.

Lemma ratio_le (a b c d : Z) :
  (0 < b)%Z -> (0 < d)%Z -> (a * d <= c * b)%Z -> IZR a / IZR b <= IZR c / IZR d.
Proof.
  intros Hb Hd H. apply IZR_le in H. rewrite !mult_IZR in H.
  apply IZR_lt in Hb, Hd.
  apply (Rmult_le_reg_r (IZR b * IZR d)); [nra |].
  field_simplify; lra.
Qed.

(** [l/ld <= (x/xd) ** e] as soon as [l^q * xd^p <= x^p * ld^q]. *)
Lemma pow_ge_ratio (x xd l ld : Z) (e : R) (p q : nat) :
  (0 < x)%Z -> (0 < xd)%Z -> (0 < l)%Z -> (0 < ld)%Z -> (0 < q)%nat ->
  e * INR q = INR p ->
  (l ^ Z.of_nat q * xd ^ Z.of_nat p <=? x ^ Z.of_nat p * ld ^ Z.of_nat q)%Z = true ->
  IZR l / IZR ld <= Py.pow (IZR x / IZR xd) e.
Proof.
  intros Hx Hxd Hl Hld Hq He Hcmp. apply Z.leb_le in Hcmp.
  pose proof (IZR_lt _ _ Hx). pose proof (IZR_lt _ _ Hxd).
  pose proof (IZR_lt _ _ Hl). pose proof (IZR_lt _ _ Hld).
  apply (pow_ge _ e _ p q); try assumption.
  - apply Rdiv_lt_0_compat; assumption.
  - apply Rdiv_lt_0_compat; assumption.
  - rewrite !ratio_pow by assumption.
    apply ratio_le; try (apply Z.pow_pos_nonneg; lia). exact Hcmp.
Qed.

(** [(x/xd) ** e <= u/ud] as soon as [x^p * ud^q <= u^q * xd^p]. *)
Lemma pow_le_ratio (x xd u ud : Z) (e : R) (p q : nat) :
  (0 < x)%Z -> (0 < xd)%Z -> (0 < u)%Z -> (0 < ud)%Z -> (0 < q)%nat ->
  e * INR q = INR p ->
  (x ^ Z.of_nat p * ud ^ Z.of_nat q <=? u ^ Z.of_nat q * xd ^ Z.of_nat p)%Z = true ->
  Py.pow (IZR x / IZR xd) e <= IZR u / IZR ud.
Proof.
  intros Hx Hxd Hu Hud Hq He Hcmp. apply Z.leb_le in Hcmp.
  pose proof (IZR_lt _ _ Hx). pose proof (IZR_lt _ _ Hxd).
  pose proof (IZR_lt _ _ Hu). pose proof (IZR_lt _ _ Hud).
  apply (pow_le _ e _ p q); try assumption.
  - apply Rdiv_lt_0_compat; assumption.
  - apply Rdiv_lt_0_compat; assumption.
  - rewrite !ratio_pow by assumption.
    apply ratio_le; try (apply Z.pow_pos_nonneg; lia). exact Hcmp.
Qed.

Lemma pow_one (e : R) : Py.pow 1 e = 1.
Proof. unfold Py.pow, Rpower. rewrite ln_1, Rmult_0_r. apply exp_0. Qed.

End RationalPowers.

(** ** Running the rate computation *)

Section Evaluation.

#[local] Open Scope R_scope.

Lemma app_denominator_pos (tc cp : Z) :
  (0 <= tc)%Z -> (0 <= cp)%Z -> 0 < App.cp_denominator (Z.min 100 tc) cp.
Proof.
  intros Htc Hcp. unfold App.cp_denominator.
  assert (H1 : 0 <= IZR (100 - Z.min 100 tc)) by (apply IZR_le; lia).
  assert (H2 : 0 <= IZR cp) by (apply IZR_le; lia).
  assert (0 <= IZR (100 - Z.min 100 tc) / 100 * IZR cp); [| lra].
  apply Rmult_le_pos; lra.
Qed.

Lemma float_max_int_large : (1000000 < float_max_int)%Z.
Proof. reflexivity. Qed.

Lemma int_truediv_converts {S : Type} (n : Z) (s : S) :
  (Z.abs n < float_max_int * 100)%Z ->
  int_truediv n 100 s = (Ok (IZR n / 100), s).
Proof.
  intros Hn. unfold int_truediv, ret.
  destruct (decide _) as [E | _]; [discriminate |].
  destruct (decide _) as [_ | E]; [reflexivity | lia].
Qed.

(** The capped counter of a counted species always converts. *)
Lemma counter_factor_converts {S : Type} (tc : Z) (s : S) :
  (0 <= tc)%Z ->
  int_truediv (100 - Z.min 100 tc) 100 s
  = (Ok (IZR (100 - Z.min 100 tc) / 100), s).
Proof.
  intros Htc. apply int_truediv_converts.
  pose proof float_max_int_large. lia.
Qed.

Lemma float_of_int_converts {S : Type} (n : Z) (s : S) :
  (Z.abs n < float_max_int)%Z -> float_of_int n s = (Ok (IZR n), s).
Proof.
  intros Hn. unfold float_of_int, ret.
  destruct (decide _) as [_ | E]; [reflexivity | contradiction].
Qed.

Lemma float_of_int_overflows {S : Type} (n : Z) (s : S) :
  (float_max_int <= Z.abs n)%Z -> float_of_int n s = (Raise OverflowError, s).
Proof.
  intros Hn. unfold float_of_int, raise.
  destruct (decide _) as [E | _]; [lia | reflexivity].
Qed.

(** Past the species lookup and the two conversions. *)
Lemma app_calc_converted (st : App.state) pokemon cp ball berry technique entry :
  App.pokemon_dict st !! pokemon = Some entry ->
  (0 <= times_caught entry)%Z ->
  (Z.abs cp < float_max_int)%Z ->
  App.catchrate_calc pokemon cp ball berry technique st =
  (let den := App.cp_denominator (Z.min 100 (times_caught entry)) cp in
   if decide (den = 0) then raise ZeroDivisionError
   else
     ball_rate <- subscript (fun st => App.ballrate_dict st !! ball) ball ;;
     technique_rate <- subscript
       (fun st => assoc (App.technique_dict st) technique) technique ;;
     berry_rate <- subscript (fun st => App.berry_dict st !! berry) berry ;;
     if decide (catch_rate entry < 0 \/ den < 0 \/ ball_rate < 0
                \/ technique_rate * berry_rate < 0)
     then ret 100
     else if decide (catch_rate entry = 0 \/ ball_rate = 0
                     \/ technique_rate * berry_rate = 0)
     then ret 0
     else
       ret (App.percent (App.residual (App.scale_factor (catch_rate entry)
              den ball_rate technique_rate berry_rate)))) st.
Proof.
  intros Hp Htc Hcp.
  unfold App.catchrate_calc. unfold bind at 1. unfold subscript at 1. rewrite Hp.
  unfold bind at 1. rewrite (counter_factor_converts _ st Htc).
  unfold bind at 1. rewrite (float_of_int_converts _ st Hcp).
  reflexivity.
Qed.

Lemma legacy_calc_converted (st : Legacy.state) pokemon cp ball berry technique entry :
  Legacy.pokemon_dict st !! pokemon = Some entry ->
  (0 <= times_caught entry)%Z ->
  (Z.abs cp < float_max_int)%Z ->
  Legacy.catchrate_calc pokemon cp ball berry technique st =
  (let den := Legacy.cp_denominator (Z.min 100 (times_caught entry)) cp in
   if decide (den = 0) then raise ZeroDivisionError
   else
     ball_rate <- subscript (fun st => Legacy.ballrate_dict st !! ball) ball ;;
     technique_rate <- subscript
       (fun st => assoc (Legacy.technique_dict st) technique) technique ;;
     berry_rate <- subscript (fun st => Legacy.berry_dict st !! berry) berry ;;
     if decide (catch_rate entry = 0 \/ ball_rate = 0
                \/ technique_rate + berry_rate = 0)
     then raise ZeroDivisionError
     else if decide (catch_rate entry < 0 \/ den < 0 \/ ball_rate < 0
                     \/ technique_rate + berry_rate < 0)
     then raise (TypeError "'<' not supported between instances of 'complex' and 'int'")
     else
       ret (Legacy.percent (Legacy.residual (Legacy.scale_factor (catch_rate entry)
              den ball_rate technique_rate berry_rate)))) st.
Proof.
  intros Hp Htc Hcp.
  unfold Legacy.catchrate_calc. unfold bind at 1. unfold subscript at 1. rewrite Hp.
  unfold bind at 1. rewrite (counter_factor_converts _ st Htc).
  unfold bind at 1. rewrite (float_of_int_converts _ st Hcp).
  reflexivity.
Qed.

(** With positive table entries, a counted species, a combat power that
    converts and a positive denominator the computation is the formula on
    the reals. *)
Lemma app_calc_eq (st : App.state) pokemon cp ball berry technique
    entry ball_rate technique_rate berry_rate :
  App.pokemon_dict st !! pokemon = Some entry ->
  App.ballrate_dict st !! ball = Some ball_rate ->
  assoc (App.technique_dict st) technique = Some technique_rate ->
  App.berry_dict st !! berry = Some berry_rate ->
  0 < catch_rate entry /\ 0 < ball_rate /\ 0 < technique_rate /\ 0 < berry_rate ->
  (0 <= times_caught entry)%Z ->
  (Z.abs cp < float_max_int)%Z ->
  0 < App.cp_denominator (Z.min 100 (times_caught entry)) cp ->
  App.catchrate_calc pokemon cp ball berry technique st =
  (Ok (App.percent (App.residual (App.scale_factor (catch_rate entry)
         (App.cp_denominator (Z.min 100 (times_caught entry)) cp)
         ball_rate technique_rate berry_rate))), st).
Proof.
  intros Hp Hb Ht Hy (Pc & Pb & Pt & Py) Htc Hcp Hden.
  rewrite (app_calc_converted st _ _ _ _ _ _ Hp Htc Hcp). cbv zeta.
  assert (0 < technique_rate * berry_rate) by (apply Rmult_lt_0_compat; lra).
  destruct (decide _) as [E | _]; [lra |].
  unfold bind, subscript, ret.
  rewrite Hb, Ht, Hy.
  destruct (decide _) as [E | _]; [lra |].
  destruct (decide _) as [E | _]; [lra | reflexivity].
Qed.

Lemma legacy_calc_eq (st : Legacy.state) pokemon cp ball berry technique
    entry ball_rate technique_rate berry_rate :
  Legacy.pokemon_dict st !! pokemon = Some entry ->
  Legacy.ballrate_dict st !! ball = Some ball_rate ->
  assoc (Legacy.technique_dict st) technique = Some technique_rate ->
  Legacy.berry_dict st !! berry = Some berry_rate ->
  0 < catch_rate entry /\ 0 < ball_rate /\ 0 < technique_rate /\ 0 < berry_rate ->
  (0 <= times_caught entry)%Z ->
  (Z.abs cp < float_max_int)%Z ->
  0 < Legacy.cp_denominator (Z.min 100 (times_caught entry)) cp ->
  Legacy.catchrate_calc pokemon cp ball berry technique st =
  (Ok (Legacy.percent (Legacy.residual (Legacy.scale_factor (catch_rate entry)
         (Legacy.cp_denominator (Z.min 100 (times_caught entry)) cp)
         ball_rate technique_rate berry_rate))), st).
Proof.
  intros Hp Hb Ht Hy (Pc & Pb & Pt & Py) Htc Hcp Hden.
  rewrite (legacy_calc_converted st _ _ _ _ _ _ Hp Htc Hcp). cbv zeta.
  destruct (decide _) as [E | _]; [lra |].
  unfold bind, subscript, ret.
  rewrite Hb, Ht, Hy.
  destruct (decide _) as [E | _]; [lra |].
  destruct (decide _) as [E | _]; [lra | reflexivity].
Qed.

Lemma app_calc_resolved (st : App.state) pokemon cp ball berry technique entry b t y :
  resolved (App.pokemon_dict st) (App.ballrate_dict st) (App.technique_dict st)
    (App.berry_dict st) pokemon ball berry technique entry b t y ->
  (0 <= cp < float_max_int)%Z ->
  App.catchrate_calc pokemon cp ball berry technique st =
  (Ok (App.percent (App.residual (App.scale_factor (catch_rate entry)
         (App.cp_denominator (Z.min 100 (times_caught entry)) cp) b t y))), st).
Proof.
  intros [Hp Hb Ht Hy Pcr Pb Pt Py Htc] Hcp.
  apply (app_calc_eq st _ _ _ _ _ _ _ _ _ Hp Hb Ht Hy); [tauto | lia | lia |].
  apply app_denominator_pos; lia.
Qed.

Lemma legacy_calc_resolved (st : Legacy.state) pokemon cp ball berry technique
    entry b t y :
  resolved (Legacy.pokemon_dict st) (Legacy.ballrate_dict st)
    (Legacy.technique_dict st) (Legacy.berry_dict st)
    pokemon ball berry technique entry b t y ->
  (0 <= cp < float_max_int)%Z ->
  Legacy.catchrate_calc pokemon cp ball berry technique st =
  (Ok (Legacy.percent (Legacy.residual (Legacy.scale_factor (catch_rate entry)
         (Legacy.cp_denominator (Z.min 100 (times_caught entry)) cp) b t y))), st).
Proof.
  intros [Hp Hb Ht Hy Pcr Pb Pt Py Htc] Hcp.
  apply (legacy_calc_eq st _ _ _ _ _ _ _ _ _ Hp Hb Ht Hy); [tauto | lia | lia |].
  apply app_denominator_pos; lia.
Qed.

Lemma app_scale_pos cr den b t y : 0 < App.scale_factor cr den b t y.
Proof.
  unfold App.scale_factor.
  do 4 (apply Rmult_lt_0_compat; [| apply pow_pos]). lra.
Qed.



Lemma legacy_residual_pos a : 0 < Legacy.residual a.
Proof. unfold Legacy.residual. apply Rdiv_lt_0_compat; [lra | apply pow_pos]. Qed.



Lemma product_le (k p1 p2 p3 p4 u1 u2 u3 u4 : R) :
  0 < k -> 0 < p1 <= u1 -> 0 < p2 <= u2 -> 0 < p3 <= u3 -> 0 < p4 <= u4 ->
  k * p1 * p2 * p3 * p4 <= k * u1 * u2 * u3 * u4.
Proof.
  intros Hk H1 H2 H3 H4.
  assert (A1 : 0 < k * p1) by (apply Rmult_lt_0_compat; lra).
  assert (B1 : k * p1 <= k * u1) by (apply Rmult_le_compat_l; lra).
  assert (A2 : 0 < k * p1 * p2) by (apply Rmult_lt_0_compat; lra).
  assert (B2 : k * p1 * p2 <= k * u1 * u2) by (apply Rmult_le_compat; lra).
  assert (A3 : 0 < k * p1 * p2 * p3) by (apply Rmult_lt_0_compat; lra).
  assert (B3 : k * p1 * p2 * p3 <= k * u1 * u2 * u3) by (apply Rmult_le_compat; lra).
  apply Rmult_le_compat; lra.
Qed.








End Evaluation.

(** ** The probability range *)

Section Range.

#[local] Open Scope R_scope.



(** A combat power that does not convert to a float stops either
    computation, whatever the counter. *)
Lemma app_calc_overflow (st : App.state) pokemon cp ball berry technique entry :
  App.pokemon_dict st !! pokemon = Some entry ->
  (0 <= times_caught entry)%Z ->
  (float_max_int <= Z.abs cp)%Z ->
  App.catchrate_calc pokemon cp ball berry technique st = (Raise OverflowError, st).
Proof.
  intros Hp Htc Hcp.
  unfold App.catchrate_calc. unfold bind at 1. unfold subscript at 1. rewrite Hp.
  unfold bind at 1. rewrite (counter_factor_converts _ st Htc).
  unfold bind at 1. rewrite (float_of_int_overflows _ st Hcp).
  reflexivity.
Qed.

Lemma legacy_calc_overflow (st : Legacy.state) pokemon cp ball berry technique entry :
  Legacy.pokemon_dict st !! pokemon = Some entry ->
  (0 <= times_caught entry)%Z ->
  (float_max_int <= Z.abs cp)%Z ->
  Legacy.catchrate_calc pokemon cp ball berry technique st = (Raise OverflowError, st).
Proof.
  intros Hp Htc Hcp.
  unfold Legacy.catchrate_calc. unfold bind at 1. unfold subscript at 1. rewrite Hp.
  unfold bind at 1. rewrite (counter_factor_converts _ st Htc).
  unfold bind at 1. rewrite (float_of_int_overflows _ st Hcp).
  reflexivity.
Qed.


End Range.

Section RangeExamples.

#[local] Open Scope R_scope.

Lemma example_resolved_app pokemon rate caught :
  example_pokemon !! pokemon = Some (example_entry rate caught) ->
  0 < rate -> (0 <= caught)%Z ->
  resolved (App.pokemon_dict app_example) (App.ballrate_dict app_example)
    (App.technique_dict app_example) (App.berry_dict app_example)
    pokemon "pokeball" "none" "None" (example_entry rate caught) 1 1 1.
Proof. intros Hp Hr Hc. constructor; simpl; try reflexivity; try lra; assumption. Qed.

Lemma example_resolved_legacy pokemon rate caught :
  example_pokemon !! pokemon = Some (example_entry rate caught) ->
  0 < rate -> (0 <= caught)%Z ->
  resolved (Legacy.pokemon_dict legacy_example) (Legacy.ballrate_dict legacy_example)
    (Legacy.technique_dict legacy_example) (Legacy.berry_dict legacy_example)
    pokemon "pokeball" "none" "None" (example_entry rate caught) 1 1 1.
Proof. intros Hp Hr Hc. constructor; simpl; try reflexivity; try lra; assumption. Qed.

Lemma example_moderate rate caught :
  1 / 1000000 <= rate <= 1000000 ->
  moderate_entries (example_entry rate caught) 1 1 1.
Proof. intros Hr. constructor; unfold moderate; simpl; lra. Qed.





End RangeExamples.

(** ** Monotonicity in the multipliers *)

Section Monotone.

#[local] Open Scope R_scope.






End Monotone.

(** ** The capture counter and its cap *)

Section Counter.

#[local] Open Scope R_scope.

Lemma fourth_root_10000 : Py.pow (10000 / 1) (1 / 4) = 10.
Proof.
  apply Rle_antisym.
  - apply (pow_le _ _ _ 1 4); try lra; try lia; simpl; lra.
  - apply (pow_ge _ _ _ 1 4); try lra; try lia; simpl; lra.
Qed.

Lemma full_counter_denominator (tc cp : Z) :
  (100 <= tc)%Z -> App.cp_denominator (Z.min 100 tc) cp = 1.
Proof.
  intros Htc. unfold App.cp_denominator.
  replace (100 - Z.min 100 tc)%Z with 0%Z by lia. lra.
Qed.




Lemma app_calc_reads_cap (st : App.state) pokemon entry (v w : Z) cp ball berry technique :
  Z.min 100 v = Z.min 100 w ->
  (App.catchrate_calc pokemon cp ball berry technique (with_counter st pokemon entry v)).1
  = (App.catchrate_calc pokemon cp ball berry technique (with_counter st pokemon entry w)).1.
Proof.
  intros Hmin.
  unfold App.catchrate_calc, bind, subscript, int_truediv, float_of_int, ret, raise,
    with_counter, App.with_pokemon_dict.
  simpl. rewrite !lookup_insert_eq. simpl. rewrite Hmin.
  destruct (decide (100 = 0)%Z); [discriminate |].
  destruct (decide (Z.abs _ < _)%Z); [| reflexivity]. simpl.
  destruct (decide (Z.abs _ < _)%Z); [| reflexivity]. simpl.
  destruct (decide (_ = 0)); [reflexivity |]. simpl.
  destruct (App.ballrate_dict st !! ball); [| reflexivity]. simpl.
  destruct (assoc (App.technique_dict st) technique); [| reflexivity]. simpl.
  destruct (App.berry_dict st !! berry); [| reflexivity]. simpl.
  destruct (decide _); [reflexivity |].
  destruct (decide _); reflexivity.
Qed.

Lemma app_capture_counts (st : App.state) pokemon entry shinyradio :
  App.pokemon_dict st !! pokemon = Some entry ->
  exists st',
    App.triggers_handler (Some "add1_btn") pokemon shinyradio st = (Ok tt, st')
    /\ App.pokemon_dict st'
       = <[pokemon := set_times_caught (times_caught entry + 1) entry]> (App.pokemon_dict st)
    /\ App.ballrate_dict st' = App.ballrate_dict st
    /\ App.technique_dict st' = App.technique_dict st
    /\ App.berry_dict st' = App.berry_dict st.
Proof.
  intros Hp. unfold App.triggers_handler.
  destruct (decide _) as [_ | Hne]; [| congruence].
  unfold bind, subscript, modify, gets. rewrite Hp. simpl.
  eexists. split; [reflexivity |]. simpl. repeat split.
Qed.

(** C7: a capture stores the counter plus one whatever its value, while the
    rate computation sees the stored counter only through [min(100, _)]: two
    stored values with the same cap give the same result, so every stored
    value from 100 on behaves as 100 although the stored value keeps
    growing. *)
Theorem counter_uncapped_formula_capped
    (st : App.state) pokemon entry shinyradio :
  App.pokemon_dict st !! pokemon = Some entry ->
  (exists st' entry',
     App.triggers_handler (Some "add1_btn") pokemon shinyradio st = (Ok tt, st')
     /\ App.pokemon_dict st' !! pokemon = Some entry'
     /\ times_caught entry' = (times_caught entry + 1)%Z)
  /\ (forall (v w : Z) cp ball berry technique,
        Z.min 100 v = Z.min 100 w ->
        (App.catchrate_calc pokemon cp ball berry technique
           (with_counter st pokemon entry v)).1
        = (App.catchrate_calc pokemon cp ball berry technique
             (with_counter st pokemon entry w)).1)
  /\ (forall (v : Z) cp ball berry technique,
        (100 <= v)%Z ->
        (App.catchrate_calc pokemon cp ball berry technique
           (with_counter st pokemon entry v)).1
        = (App.catchrate_calc pokemon cp ball berry technique
             (with_counter st pokemon entry 100)).1).
Proof.
  intros Hp. split; [| split].
  - destruct (app_capture_counts st pokemon entry shinyradio Hp) as [st' [Hrun [Hd _]]].
    exists st', (set_times_caught (times_caught entry + 1) entry).
    split; [exact Hrun |]. rewrite Hd, lookup_insert_eq. split; reflexivity.
  - intros. now apply app_calc_reads_cap.
  - intros v cp ball berry technique Hv. apply app_calc_reads_cap. lia.
Qed.

Lemma counter_uncapped_formula_capped_witness :
  exists st' entry',
    App.triggers_handler (Some "add1_btn") "alola-raichu" "No" app_example = (Ok tt, st')
    /\ App.pokemon_dict st' !! "alola-raichu" = Some entry'
    /\ times_caught entry' = 121%Z.
Proof.
  exact (proj1 (counter_uncapped_formula_capped app_example "alola-raichu"
                  (example_entry 75 120) "No" eq_refl)).
Defined.

End Counter.

(** ** The ring colour *)

Section Ring.

#[local] Open Scope R_scope.

(** C5: the classifier sends a probability below 70 to red (low), one in
    [[70, 75)] to orange (medium-low), one in [[75, 80)] to gold
    (medium-high) and one from 80 on to green (high); each threshold belongs
    to the interval above it. *)
Theorem catchring_color_tiers :
  (forall p : R,
     (p < 70 -> catchring_color p = "red")
     /\ (70 <= p < 75 -> catchring_color p = "orange")
     /\ (75 <= p < 80 -> catchring_color p = "gold")
     /\ (80 <= p -> catchring_color p = "green"))
  /\ catchring_color 70.0 = "orange"
  /\ catchring_color 69.99 = "red"
  /\ catchring_color 75.0 = "gold"
  /\ catchring_color 80.0 = "green".
Proof.
  assert (H : forall p : R,
     (p < 70 -> catchring_color p = "red")
     /\ (70 <= p < 75 -> catchring_color p = "orange")
     /\ (75 <= p < 80 -> catchring_color p = "gold")
     /\ (80 <= p -> catchring_color p = "green")).
  { intros p. unfold catchring_color. cbv zeta.
    repeat split; intros Hp;
      destruct (decide (p < 70)) as [? | ?]; try lra;
      rewrite ?bool_decide_eq_true_2, ?bool_decide_eq_false_2 by lra; simpl; try reflexivity.
    all: rewrite ?bool_decide_eq_true_2, ?bool_decide_eq_false_2 by lra; reflexivity. }
  split; [exact H |].
  repeat split.
  - apply (H 70.0); lra.
  - apply (H 69.99); lra.
  - apply (H 75.0); lra.
  - apply (H 80.0); lra.
Qed.

Lemma catchring_color_tiers_witness :
  catchring_color 60 = "red" /\ catchring_color 72 = "orange"
  /\ catchring_color 77.87 = "gold" /\ catchring_color 93 = "green".
Proof.
  destruct catchring_color_tiers as [H _].
  repeat split.
  - apply (H 60); lra.
  - apply (H 72); lra.
  - apply (H 77.87); lra.
  - apply (H 93); lra.
Defined.

End Ring.

(** ** What a computation leaves untouched *)

Section Preservation.

Context {S : Type} (P : S -> Prop).

Lemma preserves_ret {A : Type} (a : A) : preserves P (ret a).
Proof. intros s Hs. exact Hs. Qed.

Lemma preserves_raise {A : Type} (e : exn) : preserves P (@raise S A e).
Proof. intros s Hs. exact Hs. Qed.

Lemma preserves_gets {A : Type} (f : S -> A) : preserves P (gets f).
Proof. intros s Hs. exact Hs. Qed.

Lemma preserves_subscript {A : Type} (d : S -> option A) (key : string) :
  preserves P (subscript d key).
Proof. intros s Hs. unfold subscript. destruct (d s); exact Hs. Qed.

Lemma preserves_modify (f : S -> S) :
  (forall s, P s -> P (f s)) -> preserves P (modify f).
Proof. intros Hf s Hs. apply Hf, Hs. Qed.

Lemma preserves_bind {A B : Type} (m : M S A) (k : A -> M S B) :
  preserves P m -> (forall a, preserves P (k a)) -> preserves P (bind m k).
Proof.
  intros Hm Hk s Hs. unfold bind.
  specialize (Hm s Hs). destruct (m s) as [[a | e] s']; simpl in *.
  - apply Hk, Hm.
  - exact Hm.
Qed.

Lemma preserves_for_each {A B : Type} (f : A -> M S B) (l : list A) :
  (forall x, preserves P (f x)) -> preserves P (for_each f l).
Proof.
  intros Hf. induction l as [| x l IH]; simpl.
  - apply preserves_ret.
  - apply preserves_bind; [apply Hf | intros y].
    apply preserves_bind; [exact IH | intros ys]. apply preserves_ret.
Qed.

Lemma preserves_float_of_int (n : Z) : preserves P (float_of_int n).
Proof.
  unfold float_of_int. destruct (decide _); [apply preserves_ret | apply preserves_raise].
Qed.

Lemma preserves_int_truediv (n d : Z) : preserves P (int_truediv n d).
Proof.
  unfold int_truediv. destruct (decide _); [apply preserves_raise |].
  destruct (decide _); [apply preserves_ret | apply preserves_raise].
Qed.

Lemma preserves_catch_rate_at (df : option DataFrame) (i : nat) :
  preserves P (catch_rate_at df i).
Proof.
  unfold catch_rate_at. destruct df as [rows |]; [| apply preserves_raise].
  destruct (rows !! i) as [[? r] |]; [apply preserves_ret | apply preserves_raise].
Qed.

End Preservation.

Create HintDb preserve.

#[local] Hint Resolve preserves_ret preserves_raise preserves_gets preserves_subscript
  preserves_float_of_int preserves_int_truediv preserves_catch_rate_at : preserve.

Ltac preserve_step :=
  first [ apply preserves_for_each; intros ?
        | apply preserves_bind; [| intros ?]
        | solve [auto with preserve] ].

(** ** The chain of the additive variant keeps its initial cell *)

Section LegacyChain.

Variable v : Td.

Let keeps_init := keeps_chaintext_init v.

Lemma legacy_print_keeps line : preserves keeps_init (Legacy.print line).
Proof. apply preserves_modify. intros st Hst. exact Hst. Qed.

Lemma legacy_calc_keeps pokemon cp ball berry technique :
  preserves keeps_init (Legacy.catchrate_calc pokemon cp ball berry technique).
Proof.
  unfold Legacy.catchrate_calc.
  do 3 (preserve_step; [preserve_step |]).
  destruct (decide _); [preserve_step |].
  do 3 (preserve_step; [preserve_step |]).
  destruct (decide _); [preserve_step |].
  destruct (decide _); preserve_step.
Qed.

Lemma legacy_catch_pokemon_keeps pokemon cp ball berry :
  preserves keeps_init (Legacy.catch_pokemon pokemon cp ball berry).
Proof.
  unfold Legacy.catch_pokemon.
  preserve_step; [preserve_step |].
  destruct (negb _); [preserve_step; [apply legacy_print_keeps | preserve_step] |].
  preserve_step; [preserve_step |].
  destruct (negb _); [preserve_step; [apply legacy_print_keeps | preserve_step] |].
  preserve_step; [preserve_step |].
  destruct (negb _); [preserve_step; [apply legacy_print_keeps | preserve_step] |].
  preserve_step; [preserve_step |].
  preserve_step; [| preserve_step].
  preserve_step. preserve_step; [apply legacy_calc_keeps | preserve_step].
Qed.

Lemma legacy_rows_keeps df : preserves keeps_init (Legacy.technique_rows df).
Proof.
  unfold Legacy.technique_rows.
  preserve_step.
  - preserve_step. preserve_step; preserve_step.
  - preserve_step. preserve_step; preserve_step.
Qed.

Lemma legacy_triggers_keeps trigger pokemonname shinyradio :
  preserves keeps_init (Legacy.update_catchrates_triggers trigger pokemonname shinyradio).
Proof.
  intros st Hst. unfold Legacy.update_catchrates_triggers.
  repeat destruct (decide _); unfold bind, subscript, gets, modify, ret;
    try destruct (Legacy.pokemon_dict st !! pokemonname); simpl; exact Hst.
Qed.

Lemma legacy_update_keeps ev : preserves keeps_init (Legacy.update_catchrates ev).
Proof.
  unfold Legacy.update_catchrates. cbv zeta.
  preserve_step; [apply legacy_triggers_keeps |].
  preserve_step; [preserve_step |].
  unfold Legacy.get_sprite.
  do 2 (preserve_step; [preserve_step; [preserve_step | preserve_step] |]).
  preserve_step; [apply legacy_catch_pokemon_keeps |].
  preserve_step; [apply legacy_rows_keeps |].
  preserve_step; [preserve_step |].
  preserve_step; preserve_step.
Qed.

Lemma legacy_run_keeps evs st : keeps_init st -> keeps_init (Legacy.run evs st).
Proof.
  revert st. induction evs as [| ev evs IH]; intros st Hst; simpl.
  - exact Hst.
  - apply IH. apply (legacy_update_keeps ev st Hst).
Qed.

End LegacyChain.

Lemma legacy_reachable_init (st : Legacy.state) :
  Legacy.reachable st ->
  Legacy.chaintext_init (Legacy.chain_dict st) = td_normal "No chain".
Proof.
  intros [st0 [evs [H0 ->]]]. apply legacy_run_keeps.
  unfold keeps_chaintext_init. rewrite H0. reflexivity.
Qed.

(** ** The chain law *)

Section ChainLaw.

Lemma app_capture_chain (st : App.state) A shinyradio entry :
  App.pokemon_dict st !! A = Some entry ->
  exists st1,
    App.triggers_handler (Some "add1_btn") A shinyradio st = (Ok tt, st1)
    /\ is_Some (App.pokemon_dict st1 !! A)
    /\ (forall B, is_Some (App.pokemon_dict st !! B) -> is_Some (App.pokemon_dict st1 !! B))
    /\ App.chain_pokemonname (App.pokemonchain_dict st1) = A
    /\ App.chain_chainvalue (App.pokemonchain_dict st1)
       = (if String.eqb (App.chain_pokemonname (App.pokemonchain_dict st)) A
          then App.chain_chainvalue (App.pokemonchain_dict st) else 0) + 1
    /\ App.chain_chaintext (App.pokemonchain_dict st1)
       = chain_message (App.chain_chainvalue (App.pokemonchain_dict st1)) A
    /\ App.chaintext st1
       = td_bold (chain_message (App.chain_chainvalue (App.pokemonchain_dict st1)) A).
Proof.
  intros Hp. unfold App.triggers_handler.
  destruct (decide _) as [_ | Hne]; [| congruence].
  unfold bind, subscript, modify, gets. rewrite Hp. simpl.
  eexists. split; [reflexivity |]. simpl.
  split; [rewrite lookup_insert_eq; eauto |].
  split.
  { intros B HB. destruct (decide (A = B)) as [-> | Hne].
    - rewrite lookup_insert_eq. eauto.
    - rewrite lookup_insert_ne by assumption. exact HB. }
  destruct (String.eqb_spec (App.chain_pokemonname (App.pokemonchain_dict st)) A) as [E | E];
    simpl; repeat split; auto.
Qed.

Lemma app_reset_chain (st : App.state) name shinyradio :
  exists st1,
    App.triggers_handler (Some "resetchain_btn") name shinyradio st = (Ok tt, st1)
    /\ App.chain_chainvalue (App.pokemonchain_dict st1) = 0
    /\ App.chain_chaintext (App.pokemonchain_dict st1) = "No chain"
    /\ App.chaintext st1 = td_normal "No chain".
Proof.
  unfold App.triggers_handler.
  destruct (decide _) as [E | _]; [discriminate |].
  destruct (decide _) as [_ | E]; [| congruence].
  unfold bind, gets, modify. simpl. eexists. repeat split.
Qed.

Lemma legacy_capture_chain (st : Legacy.state) A shinyradio entry :
  Legacy.pokemon_dict st !! A = Some entry ->
  exists st1,
    Legacy.update_catchrates_triggers (Some "add1_btn") A shinyradio st = (Ok tt, st1)
    /\ is_Some (Legacy.pokemon_dict st1 !! A)
    /\ (forall B, is_Some (Legacy.pokemon_dict st !! B) ->
                  is_Some (Legacy.pokemon_dict st1 !! B))
    /\ Legacy.last_catch (Legacy.chain_dict st1) = A
    /\ Legacy.chainvalue (Legacy.chain_dict st1)
       = (if String.eqb (Legacy.last_catch (Legacy.chain_dict st)) A
          then Legacy.chainvalue (Legacy.chain_dict st) else 0) + 1.
Proof.
  intros Hp. unfold Legacy.update_catchrates_triggers.
  destruct (decide _) as [_ | Hne]; [| congruence].
  unfold bind, subscript, modify, gets. rewrite Hp. simpl.
  eexists. split; [reflexivity |]. simpl.
  split; [rewrite lookup_insert_eq; eauto |].
  split.
  { intros B HB. destruct (decide (A = B)) as [-> | Hne].
    - rewrite lookup_insert_eq. eauto.
    - rewrite lookup_insert_ne by assumption. exact HB. }
  destruct (String.eqb_spec (Legacy.last_catch (Legacy.chain_dict st)) A) as [E | E];
    simpl; repeat split; auto.
Qed.

Lemma legacy_reset_chain (st : Legacy.state) name shinyradio :
  exists st1,
    Legacy.update_catchrates_triggers (Some "resetchain_btn") name shinyradio st
    = (Ok tt, st1)
    /\ Legacy.chainvalue (Legacy.chain_dict st1) = 0
    /\ Legacy.chaintext (Legacy.chain_dict st1)
       = Legacy.chaintext_init (Legacy.chain_dict st).
Proof.
  unfold Legacy.update_catchrates_triggers.
  destruct (decide _) as [E | _]; [discriminate |].
  destruct (decide _) as [_ | E]; [| congruence].
  unfold bind, gets, modify. simpl. eexists. repeat split.
Qed.

(** C4: in both variants a capture of [A] makes [A] the last species and
    sets the streak to the old streak plus one when [A] was the last species
    already and to 1 otherwise; so a capture of [A] right after a capture of
    [A] raises the streak by one, a capture of [B] after a capture of another
    species [A] sets the streak to 1 and the last species to [B]; and a reset
    sets the streak to 0 and the chain cell to "No chain".  The species are
    entries of [pokemon_dict]; for [pokemon_catchrate.py] the reset is taken
    in a state the process can reach. *)
Theorem chain_law :
  (forall (st : App.state) A shinyradio,
     is_Some (App.pokemon_dict st !! A) ->
     exists st1,
       App.triggers_handler (Some "add1_btn") A shinyradio st = (Ok tt, st1)
       /\ App.chain_pokemonname (App.pokemonchain_dict st1) = A
       /\ App.chain_chainvalue (App.pokemonchain_dict st1)
          = (if String.eqb (App.chain_pokemonname (App.pokemonchain_dict st)) A
             then App.chain_chainvalue (App.pokemonchain_dict st) else 0) + 1)
  /\ (forall (st : Legacy.state) A shinyradio,
        is_Some (Legacy.pokemon_dict st !! A) ->
        exists st1,
          Legacy.update_catchrates_triggers (Some "add1_btn") A shinyradio st = (Ok tt, st1)
          /\ Legacy.last_catch (Legacy.chain_dict st1) = A
          /\ Legacy.chainvalue (Legacy.chain_dict st1)
             = (if String.eqb (Legacy.last_catch (Legacy.chain_dict st)) A
                then Legacy.chainvalue (Legacy.chain_dict st) else 0) + 1)
  /\ (forall (st : App.state) A shinyradio,
     is_Some (App.pokemon_dict st !! A) ->
     exists st1 st2,
       App.triggers_handler (Some "add1_btn") A shinyradio st = (Ok tt, st1)
       /\ App.triggers_handler (Some "add1_btn") A shinyradio st1 = (Ok tt, st2)
       /\ App.chain_chainvalue (App.pokemonchain_dict st2)
          = App.chain_chainvalue (App.pokemonchain_dict st1) + 1
       /\ App.chain_pokemonname (App.pokemonchain_dict st2) = A)
  /\ (forall (st : App.state) A B shinyradio,
        is_Some (App.pokemon_dict st !! A) -> is_Some (App.pokemon_dict st !! B) ->
        A <> B ->
        exists st1 st2,
          App.triggers_handler (Some "add1_btn") A shinyradio st = (Ok tt, st1)
          /\ App.triggers_handler (Some "add1_btn") B shinyradio st1 = (Ok tt, st2)
          /\ App.chain_chainvalue (App.pokemonchain_dict st2) = 1
          /\ App.chain_pokemonname (App.pokemonchain_dict st2) = B)
  /\ (forall (st : App.state) name shinyradio,
        exists st1,
          App.triggers_handler (Some "resetchain_btn") name shinyradio st = (Ok tt, st1)
          /\ App.chain_chainvalue (App.pokemonchain_dict st1) = 0
          /\ App.chain_chaintext (App.pokemonchain_dict st1) = "No chain"
          /\ td_text (App.chaintext st1) = "No chain")
  /\ (forall (st : Legacy.state) A shinyradio,
        is_Some (Legacy.pokemon_dict st !! A) ->
        exists st1 st2,
          Legacy.update_catchrates_triggers (Some "add1_btn") A shinyradio st = (Ok tt, st1)
          /\ Legacy.update_catchrates_triggers (Some "add1_btn") A shinyradio st1
             = (Ok tt, st2)
          /\ Legacy.chainvalue (Legacy.chain_dict st2)
             = Legacy.chainvalue (Legacy.chain_dict st1) + 1
          /\ Legacy.last_catch (Legacy.chain_dict st2) = A)
  /\ (forall (st : Legacy.state) A B shinyradio,
        is_Some (Legacy.pokemon_dict st !! A) -> is_Some (Legacy.pokemon_dict st !! B) ->
        A <> B ->
        exists st1 st2,
          Legacy.update_catchrates_triggers (Some "add1_btn") A shinyradio st = (Ok tt, st1)
          /\ Legacy.update_catchrates_triggers (Some "add1_btn") B shinyradio st1
             = (Ok tt, st2)
          /\ Legacy.chainvalue (Legacy.chain_dict st2) = 1
          /\ Legacy.last_catch (Legacy.chain_dict st2) = B)
  /\ (forall (st : Legacy.state) name shinyradio,
        Legacy.reachable st ->
        exists st1,
          Legacy.update_catchrates_triggers (Some "resetchain_btn") name shinyradio st
          = (Ok tt, st1)
          /\ Legacy.chainvalue (Legacy.chain_dict st1) = 0
          /\ td_text (Legacy.chaintext (Legacy.chain_dict st1)) = "No chain").
Proof.
  repeat apply conj.
  - intros st A shinyradio [entry Hp].
    destruct (app_capture_chain st A shinyradio entry Hp)
      as (st1 & R1 & _ & _ & L1 & V1 & _).
    exists st1. auto.
  - intros st A shinyradio [entry Hp].
    destruct (legacy_capture_chain st A shinyradio entry Hp)
      as (st1 & R1 & _ & _ & L1 & V1).
    exists st1. auto.
  - intros st A shinyradio [entry Hp].
    destruct (app_capture_chain st A shinyradio entry Hp)
      as (st1 & R1 & [entry1 K1] & _ & L1 & _).
    destruct (app_capture_chain st1 A shinyradio entry1 K1)
      as (st2 & R2 & _ & _ & L2 & V2 & _).
    exists st1, st2. rewrite L1, String.eqb_refl in V2. auto.
  - intros st A B shinyradio [entry Hp] HB Hne.
    destruct (app_capture_chain st A shinyradio entry Hp)
      as (st1 & R1 & _ & Keep & L1 & _).
    destruct (Keep B HB) as [entryB KB].
    destruct (app_capture_chain st1 B shinyradio entryB KB)
      as (st2 & R2 & _ & _ & L2 & V2 & _).
    exists st1, st2. rewrite L1 in V2.
    destruct (String.eqb_spec A B) as [E | _]; [contradiction |]. auto.
  - intros st name shinyradio.
    destruct (app_reset_chain st name shinyradio) as (st1 & R1 & V1 & T1 & C1).
    exists st1. rewrite C1. auto.
  - intros st A shinyradio [entry Hp].
    destruct (legacy_capture_chain st A shinyradio entry Hp)
      as (st1 & R1 & [entry1 K1] & _ & L1 & _).
    destruct (legacy_capture_chain st1 A shinyradio entry1 K1)
      as (st2 & R2 & _ & _ & L2 & V2).
    exists st1, st2. rewrite L1, String.eqb_refl in V2. auto.
  - intros st A B shinyradio [entry Hp] HB Hne.
    destruct (legacy_capture_chain st A shinyradio entry Hp)
      as (st1 & R1 & _ & Keep & L1 & _).
    destruct (Keep B HB) as [entryB KB].
    destruct (legacy_capture_chain st1 B shinyradio entryB KB)
      as (st2 & R2 & _ & _ & L2 & V2).
    exists st1, st2. rewrite L1 in V2.
    destruct (String.eqb_spec A B) as [E | _]; [contradiction |]. auto.
  - intros st name shinyradio Hreach.
    destruct (legacy_reset_chain st name shinyradio) as (st1 & R1 & V1 & T1).
    exists st1. rewrite T1, (legacy_reachable_init st Hreach). auto.
Qed.

End ChainLaw.

Lemma legacy_example_reachable : Legacy.reachable legacy_example.
Proof. exists legacy_example, []. split; reflexivity. Qed.

Lemma chain_law_witness :
  (exists st1 st2,
     App.triggers_handler (Some "add1_btn") "pikachu" "No" app_example = (Ok tt, st1)
     /\ App.triggers_handler (Some "add1_btn") "pikachu" "No" st1 = (Ok tt, st2)
     /\ App.chain_chainvalue (App.pokemonchain_dict st2)
        = App.chain_chainvalue (App.pokemonchain_dict st1) + 1
     /\ App.chain_pokemonname (App.pokemonchain_dict st2) = "pikachu")
  /\ (exists st1 st2,
        Legacy.update_catchrates_triggers (Some "add1_btn") "pikachu" "No" legacy_example
        = (Ok tt, st1)
        /\ Legacy.update_catchrates_triggers (Some "add1_btn") "mewtwo" "No" st1
           = (Ok tt, st2)
        /\ Legacy.chainvalue (Legacy.chain_dict st2) = 1
        /\ Legacy.last_catch (Legacy.chain_dict st2) = "mewtwo")
  /\ (exists st1,
        Legacy.update_catchrates_triggers (Some "resetchain_btn") "pikachu" "No"
          legacy_example = (Ok tt, st1)
        /\ Legacy.chainvalue (Legacy.chain_dict st1) = 0
        /\ td_text (Legacy.chaintext (Legacy.chain_dict st1)) = "No chain").
Proof.
  destruct chain_law as (_ & _ & H1 & _ & _ & _ & H5 & H6).
  split; [| split].
  - apply (H1 app_example "pikachu" "No"). eexists. reflexivity.
  - apply (H5 legacy_example "pikachu" "mewtwo" "No").
    + eexists. reflexivity.
    + eexists. reflexivity.
    + discriminate.
  - apply (H6 legacy_example "pikachu" "No"). apply legacy_example_reachable.
Defined.

(** ** Unresolved identifiers *)

Section Unresolved.

(** The line [catch_pokemon] prints for the first check that fails. *)
Lemma app_catch_pokemon_unresolved (st : App.state) pokemon cp ball berry :
  App.pokemon_dict st !! pokemon = None \/ App.ballrate_dict st !! ball = None
  \/ App.berry_dict st !! berry = None ->
  exists st',
    App.catch_pokemon pokemon cp ball berry st = (Ok None, st')
    /\ App.stdout st'
       = (App.stdout st ++
         [match App.pokemon_dict st !! pokemon, App.ballrate_dict st !! ball with
          | None, _ => "Pokemon not found"
          | Some _, None => "Ball not found"
          | Some _, Some _ => "Berry not found"
          end])%list
    /\ App.pokemon_dict st' = App.pokemon_dict st
    /\ App.pokemonchain_dict st' = App.pokemonchain_dict st
    /\ App.chaintext st' = App.chaintext st.
Proof.
  intros H. unfold App.catch_pokemon, bind, gets, App.print, modify, ret. simpl.
  destruct (App.pokemon_dict st !! pokemon) as [entry |] eqn:Hp.
  - rewrite bool_decide_eq_true_2 by eauto. simpl.
    destruct (App.ballrate_dict st !! ball) as [b |] eqn:Hb.
    + rewrite bool_decide_eq_true_2 by eauto. simpl.
      destruct (App.berry_dict st !! berry) as [y |] eqn:Hy.
      * destruct H as [H | [H | H]]; discriminate.
      * rewrite bool_decide_eq_false_2 by (intros [? ?]; discriminate). simpl.
        eexists. repeat split.
    + rewrite bool_decide_eq_false_2 by (intros [? ?]; discriminate). simpl.
      eexists. repeat split.
  - rewrite bool_decide_eq_false_2 by (intros [? ?]; discriminate). simpl.
    eexists. repeat split.
Qed.

Lemma legacy_catch_pokemon_unresolved (st : Legacy.state) pokemon cp ball berry :
  Legacy.pokemon_dict st !! pokemon = None \/ Legacy.ballrate_dict st !! ball = None
  \/ Legacy.berry_dict st !! berry = None ->
  exists st',
    Legacy.catch_pokemon pokemon cp ball berry st = (Ok None, st')
    /\ Legacy.stdout st'
       = (Legacy.stdout st ++
         [match Legacy.pokemon_dict st !! pokemon, Legacy.ballrate_dict st !! ball with
          | None, _ => "Pokemon not found"
          | Some _, None => "Ball not found"
          | Some _, Some _ => "Berry not found"
          end])%list
    /\ Legacy.pokemon_dict st' = Legacy.pokemon_dict st
    /\ Legacy.chain_dict st' = Legacy.chain_dict st.
Proof.
  intros H. unfold Legacy.catch_pokemon, bind, gets, Legacy.print, modify, ret. simpl.
  destruct (Legacy.pokemon_dict st !! pokemon) as [entry |] eqn:Hp.
  - rewrite bool_decide_eq_true_2 by eauto. simpl.
    destruct (Legacy.ballrate_dict st !! ball) as [b |] eqn:Hb.
    + rewrite bool_decide_eq_true_2 by eauto. simpl.
      destruct (Legacy.berry_dict st !! berry) as [y |] eqn:Hy.
      * destruct H as [H | [H | H]]; discriminate.
      * rewrite bool_decide_eq_false_2 by (intros [? ?]; discriminate). simpl.
        eexists. repeat split.
    + rewrite bool_decide_eq_false_2 by (intros [? ?]; discriminate). simpl.
      eexists. repeat split.
  - rewrite bool_decide_eq_false_2 by (intros [? ?]; discriminate). simpl.
    eexists. repeat split.
Qed.

(** C3, as the code has it: when the species, the ball or the berry is not
    in its table, [catch_pokemon] raises nothing; it prints which table
    missed its key and returns [None], so no probability is produced, and the
    counters and the chain are as before.  Techniques are read from
    [technique_dict] itself and cannot be unresolved. *)
Theorem unresolved_identifier_returns_none :
  (forall (st : App.state) pokemon cp ball berry,
     App.pokemon_dict st !! pokemon = None \/ App.ballrate_dict st !! ball = None
     \/ App.berry_dict st !! berry = None ->
     exists st',
       App.catch_pokemon pokemon cp ball berry st = (Ok None, st')
       /\ App.stdout st'
          = (App.stdout st ++
            [match App.pokemon_dict st !! pokemon, App.ballrate_dict st !! ball with
             | None, _ => "Pokemon not found"
             | Some _, None => "Ball not found"
             | Some _, Some _ => "Berry not found"
             end])%list
       /\ App.pokemon_dict st' = App.pokemon_dict st
       /\ App.pokemonchain_dict st' = App.pokemonchain_dict st
       /\ App.chaintext st' = App.chaintext st)
  /\
  (forall (st : Legacy.state) pokemon cp ball berry,
     Legacy.pokemon_dict st !! pokemon = None \/ Legacy.ballrate_dict st !! ball = None
     \/ Legacy.berry_dict st !! berry = None ->
     exists st',
       Legacy.catch_pokemon pokemon cp ball berry st = (Ok None, st')
       /\ Legacy.stdout st'
          = (Legacy.stdout st ++
            [match Legacy.pokemon_dict st !! pokemon, Legacy.ballrate_dict st !! ball with
             | None, _ => "Pokemon not found"
             | Some _, None => "Ball not found"
             | Some _, Some _ => "Berry not found"
             end])%list
       /\ Legacy.pokemon_dict st' = Legacy.pokemon_dict st
       /\ Legacy.chain_dict st' = Legacy.chain_dict st).
Proof.
  split; intros; [apply app_catch_pokemon_unresolved | apply legacy_catch_pokemon_unresolved];
    assumption.
Qed.

Lemma unresolved_identifier_returns_none_witness :
  exists st',
    App.catch_pokemon "pikachu" 100 "masterball" "none" app_example = (Ok None, st')
    /\ App.stdout st' = ["Ball not found"]
    /\ App.pokemon_dict st' = example_pokemon.
Proof.
  destruct (proj1 unresolved_identifier_returns_none app_example
              "pikachu" 100 "masterball" "none")
    as (st' & Hrun & Hout & Hdict & _).
  - right. left. reflexivity.
  - exists st'. split; [exact Hrun |]. split; [exact Hout | exact Hdict].
Defined.

(** C3 fails as stated: for a species that is not in [pokemon_dict] the call
    returns [None] normally instead of raising an error, and so it does for
    an unknown ball; the callback that asked then stops on subscripting
    [None], with an error that names no identifier. *)
Lemma unknown_species_raises_nothing :
  App.pokemon_dict app_example !! "unknown-id" = None
  /\ (App.catch_pokemon "unknown-id" 100 "pokeball" "none" app_example).1 = Ok None
  /\ ~ (exists e, (App.catch_pokemon "unknown-id" 100 "pokeball" "none" app_example).1
                  = Raise e)
  /\ App.ballrate_dict app_example !! "masterball" = None
  /\ (App.catch_pokemon "pikachu" 100 "masterball" "none" app_example).1 = Ok None
  /\ (App.update_catchrates
        {| triggered_id := Some "ball"; ev_pokemonname := "pikachu"; ev_cp := 100;
           ev_ball := "masterball"; ev_berry := "none"; ev_shinyradio := "No" |}
        app_example).1
     = Raise (TypeError "'NoneType' object is not subscriptable").
Proof.
  split; [reflexivity |].
  assert (H : (App.catch_pokemon "unknown-id" 100 "pokeball" "none" app_example).1 = Ok None)
    by reflexivity.
  split; [exact H |].
  split; [intros [e He]; rewrite H in He; discriminate |].
  repeat split.
Qed.

End Unresolved.

(** ** Combat power is not validated *)

Section CombatPower.

#[local] Open Scope R_scope.













End CombatPower.

(** ** The worked scenario: base rate 190, nothing caught, combat power 100 *)

Section Scenario.

#[local] Open Scope R_scope.

Ltac rational_exponent :=
  rewrite !INR_IZR_INZ;
  repeat match goal with
         | |- context [Z.of_nat ?n] =>
             let z := eval vm_compute in (Z.of_nat n) in change (Z.of_nat n) with z
         end;
  lra.

Ltac integer_comparison := vm_compute; reflexivity.

Lemma div_bounds (k w l u : R) :
  0 < k -> 0 < l <= w -> w <= u -> k / u <= k / w <= k / l.
Proof.
  intros Hk [Hl Hlw] Hwu. unfold Rdiv. split.
  - apply Rmult_le_compat_l; [lra |]. apply Rinv_le_contravar; lra.
  - apply Rmult_le_compat_l; [lra |]. apply Rinv_le_contravar; lra.
Qed.

Lemma scenario_denominator : App.cp_denominator (Z.min 100 0) 100 = 101.
Proof.
  unfold App.cp_denominator. change (100 - Z.min 100 0)%Z with 100%Z. lra.
Qed.

Lemma base_rate_190 : 17.051347 <= Py.pow 190 (1 / 1.85) <= 17.051348.
Proof.
  replace 190 with (IZR 190 / IZR 1) by lra. split.
  - replace 17.051347 with (IZR 17051347 / IZR 1000000) by lra.
    apply (pow_ge_ratio _ _ _ _ _ 20 37); try lia; [rational_exponent | integer_comparison].
  - replace 17.051348 with (IZR 17051348 / IZR 1000000) by lra.
    apply (pow_le_ratio _ _ _ _ _ 20 37); try lia; [rational_exponent | integer_comparison].
Qed.

Lemma combat_power_100 : 3.154421 <= Py.pow (10000 / 101) (1 / 4) <= 3.154422.
Proof.
  replace (10000 / 101) with (IZR 10000 / IZR 101) by lra. split.
  - replace 3.154421 with (IZR 3154421 / IZR 1000000) by lra.
    apply (pow_ge_ratio _ _ _ _ _ 1 4); try lia; [rational_exponent | integer_comparison].
  - replace 3.154422 with (IZR 3154422 / IZR 1000000) by lra.
    apply (pow_le_ratio _ _ _ _ _ 1 4); try lia; [rational_exponent | integer_comparison].
Qed.

Lemma root_two : 1.414213 <= Py.pow (1 + 1) (1 / 2) <= 1.414214.
Proof.
  replace (1 + 1) with (IZR 2 / IZR 1) by lra. split.
  - replace 1.414213 with (IZR 1414213 / IZR 1000000) by lra.
    apply (pow_ge_ratio _ _ _ _ _ 1 2); try lia; [rational_exponent | integer_comparison].
  - replace 1.414214 with (IZR 1414214 / IZR 1000000) by lra.
    apply (pow_le_ratio _ _ _ _ _ 1 2); try lia; [rational_exponent | integer_comparison].
Qed.

Lemma app_scenario_scale : 67.2339 <= App.scale_factor 190 101 1 1 1 <= 67.234.
Proof.
  unfold App.scale_factor.
  destruct base_rate_190 as [L1 U1], combat_power_100 as [L2 U2].
  replace (1 * 1) with 1 by lra. rewrite !pow_one. split.
  - apply Rle_trans with (1.25 * 17.051347 * 3.154421 * 1 * 1); [lra |].
    apply product_le; lra.
  - apply Rle_trans with (1.25 * 17.051348 * 3.154422 * 1 * 1); [| lra].
    apply product_le; try lra; split; try lra; apply pow_pos.
Qed.

Lemma app_scenario_root (a : R) :
  67.2339 <= a <= 67.234 ->
  1.28416622 <= Py.pow (255 / a) (1 / 5.33) <= 1.28416659.
Proof.
  intros [La Ua].
  destruct (div_bounds 255 a 67.2339 67.234) as [Lx Ux]; try lra.
  split.
  - apply Rle_trans with (Py.pow (255 / 67.234) (1 / 5.33)); [| apply pow_mono; lra].
    replace (255 / 67.234) with (IZR 127500 / IZR 33617) by lra.
    replace 1.28416622 with (IZR 64208311 / IZR 50000000) by lra.
    apply (pow_ge_ratio _ _ _ _ _ 100 533); try lia; [rational_exponent | integer_comparison].
  - apply Rle_trans with (Py.pow (255 / 67.2339) (1 / 5.33)).
    + apply pow_mono; lra.
    + replace (255 / 67.2339) with (IZR 850000 / IZR 224113) by lra.
      replace 1.28416659 with (IZR 128416659 / IZR 100000000) by lra.
      apply (pow_le_ratio _ _ _ _ _ 100 533); try lia;
        [rational_exponent | integer_comparison].
Qed.

Lemma app_scenario_residual (a : R) :
  67.2339 <= a <= 67.234 -> 51033.09 <= App.residual a <= 51033.12.
Proof.
  intros Ha. destruct (app_scenario_root a Ha) as [Lw Uw]. unfold App.residual.
  destruct (div_bounds 65535 (Py.pow (255 / a) (1 / 5.33)) 1.28416622 1.28416659)
    as [Lb Ub]; try lra.
Qed.

Lemma app_scenario_percent (b : R) :
  51033.09 <= b <= 51033.12 -> App.percent b = 77.87.
Proof.
  intros [Lb Ub]. unfold App.percent. cbv zeta.
  rewrite min_r by lra.
  rewrite (round2_near _ 7787) by lra. lra.
Qed.

Lemma app_scenario_value :
  App.catchrate_calc "pikachu" 100 "pokeball" "none" "None" app_example
  = (Ok 77.87, app_example).
Proof.
  rewrite (app_calc_eq app_example "pikachu" 100 "pokeball" "none" "None"
             (example_entry 190 0) 1 1 1 eq_refl eq_refl eq_refl eq_refl);
    [| simpl; lra | simpl; lia | reflexivity | apply app_denominator_pos; simpl; lia].
  simpl catch_rate. simpl times_caught. rewrite scenario_denominator.
  rewrite (app_scenario_percent _ (app_scenario_residual _ app_scenario_scale)).
  reflexivity.
Qed.

Lemma legacy_scenario_scale : 95.083 <= Legacy.scale_factor 190 101 1 1 1 <= 95.084.
Proof.
  unfold Legacy.scale_factor.
  destruct base_rate_190 as [L1 U1], combat_power_100 as [L2 U2], root_two as [L3 U3].
  rewrite !pow_one. split.
  - apply Rle_trans with (1.25 * 17.051347 * 3.154421 * 1 * 1.414213); [lra |].
    apply product_le; lra.
  - apply Rle_trans with (1.25 * 17.051348 * 3.154422 * 1 * 1.414214); [| lra].
    apply product_le; try lra; split; try lra; apply pow_pos.
Qed.

Lemma legacy_scenario_root (a : R) :
  95.083 <= a <= 95.084 -> 4.151042 <= Py.pow a (5 / 16) <= 4.151056.
Proof.
  intros [La Ua]. split.
  - apply Rle_trans with (Py.pow 95.083 (5 / 16)); [| apply pow_mono; lra].
    replace 95.083 with (IZR 95083 / IZR 1000) by lra.
    replace 4.151042 with (IZR 4151042 / IZR 1000000) by lra.
    apply (pow_ge_ratio _ _ _ _ _ 5 16); try lia; [rational_exponent | integer_comparison].
  - apply Rle_trans with (Py.pow 95.084 (5 / 16)); [apply pow_mono; lra |].
    replace 95.084 with (IZR 95084 / IZR 1000) by lra.
    replace 4.151056 with (IZR 4151056 / IZR 1000000) by lra.
    apply (pow_le_ratio _ _ _ _ _ 5 16); try lia; [rational_exponent | integer_comparison].
Qed.

Lemma legacy_scenario_percent (a : R) :
  95.083 <= a <= 95.084 -> Legacy.percent (Legacy.residual a) = 75.91.
Proof.
  intros Ha. destruct (legacy_scenario_root a Ha) as [Lw Uw].
  unfold Legacy.percent, Legacy.residual. cbv zeta.
  destruct (div_bounds 65535 (Py.pow a (5 / 16)) 4.151042 4.151056) as [Lb Ub]; try lra.
  rewrite min_r by lra.
  rewrite (round2_near _ 7591) by lra. lra.
Qed.

Lemma legacy_scenario_value :
  Legacy.catchrate_calc "pikachu" 100 "pokeball" "none" "None" legacy_example
  = (Ok 75.91, legacy_example).
Proof.
  rewrite (legacy_calc_eq legacy_example "pikachu" 100 "pokeball" "none" "None"
             (example_entry 190 0) 1 1 1 eq_refl eq_refl eq_refl eq_refl);
    [| simpl; lra | simpl; lia | reflexivity | apply app_denominator_pos; simpl; lia].
  simpl catch_rate. simpl times_caught.
  change (Legacy.cp_denominator (Z.min 100 0) 100) with (App.cp_denominator (Z.min 100 0) 100).
  rewrite scenario_denominator.
  rewrite (legacy_scenario_percent _ legacy_scenario_scale). reflexivity.
Qed.

End Scenario.

(** ** The scenario as printed, and the two formulas side by side *)

Section ScenarioClaims.

#[local] Open Scope R_scope.

Lemma shown_as_interval (unit x v : R) :
  shown_as unit x v <-> v - unit / 2 <= x <= v + unit / 2.
Proof.
  unfold shown_as, Rabs. destruct (Rcase_abs (x - v)); split; intros H; lra.
Qed.

(** C9, with the numbers the code produces: for base catch rate 190, nothing
    caught, combat power 100 and all three multipliers 1 the multiplicative
    formula has a scale factor shown as 67.23, a residual shown as 51033.1
    and returns exactly 77.87, which the classifier colours gold
    (medium-high). *)
Theorem scenario_190_cp100 :
  let a := App.scale_factor 190 (App.cp_denominator (Z.min 100 0) 100) 1 1 1 in
  shown_as 0.01 a 67.23
  /\ shown_as 0.1 (App.residual a) 51033.1
  /\ App.catchrate_calc "pikachu" 100 "pokeball" "none" "None" app_example
     = (Ok 77.87, app_example)
  /\ catchring_color 77.87 = "gold".
Proof.
  cbv zeta. rewrite scenario_denominator.
  pose proof app_scenario_scale as Ha.
  pose proof (app_scenario_residual _ Ha) as Hb.
  split; [apply shown_as_interval; lra |].
  split; [apply shown_as_interval; lra |].
  split; [apply app_scenario_value |].
  unfold catchring_color. cbv zeta.
  destruct (decide _) as [H | _]; [lra |].
  rewrite (bool_decide_eq_false_2 (77.87 < 75)) by lra.
  rewrite !bool_decide_eq_true_2 by lra. reflexivity.
Qed.

(** C9 fails as printed: none of the three numbers of the specification is
    the number the formula gives; the returned probability is 77.87, not
    77.91. *)
Lemma scenario_190_cp100_not_as_printed :
  let a := App.scale_factor 190 (App.cp_denominator (Z.min 100 0) 100) 1 1 1 in
  ~ shown_as 0.01 a 67.26
  /\ ~ shown_as 0.1 (App.residual a) 51038.9
  /\ (exists p,
        App.catchrate_calc "pikachu" 100 "pokeball" "none" "None" app_example
        = (Ok p, app_example)
        /\ ~ shown_as 0.01 p 77.91).
Proof.
  cbv zeta. rewrite scenario_denominator.
  pose proof app_scenario_scale as Ha.
  pose proof (app_scenario_residual _ Ha) as Hb.
  split; [rewrite shown_as_interval; lra |].
  split; [rewrite shown_as_interval; lra |].
  exists 77.87. split; [apply app_scenario_value |].
  rewrite shown_as_interval. lra.
Qed.

(** C2: the two formulas are not the same function.  On one database, for
    the species of base rate 190 with nothing caught, combat power 100 and
    multipliers 1, [app.py] returns 77.87 and [pokemon_catchrate.py] returns
    75.91. *)
Theorem variants_differ :
  exists (st_app : App.state) (st_legacy : Legacy.state)
         pokemon (cp : Z) ball berry technique entry b t y (p_app p_legacy : R),
    resolved (App.pokemon_dict st_app) (App.ballrate_dict st_app)
      (App.technique_dict st_app) (App.berry_dict st_app)
      pokemon ball berry technique entry b t y
    /\ resolved (Legacy.pokemon_dict st_legacy) (Legacy.ballrate_dict st_legacy)
         (Legacy.technique_dict st_legacy) (Legacy.berry_dict st_legacy)
         pokemon ball berry technique entry b t y
    /\ (0 < cp)%Z
    /\ App.catchrate_calc pokemon cp ball berry technique st_app = (Ok p_app, st_app)
    /\ Legacy.catchrate_calc pokemon cp ball berry technique st_legacy
       = (Ok p_legacy, st_legacy)
    /\ p_app = 77.87 /\ p_legacy = 75.91
    /\ p_app <> p_legacy.
Proof.
  exists app_example, legacy_example, "pikachu", 100%Z, "pokeball", "none", "None",
    (example_entry 190 0), 1, 1, 1, 77.87, 75.91.
  split; [apply example_resolved_app; [reflexivity | lra | lia] |].
  split; [apply example_resolved_legacy; [reflexivity | lra | lia] |].
  split; [lia |].
  split; [apply app_scenario_value |].
  split; [apply legacy_scenario_value |].
  repeat split. lra.
Qed.

End ScenarioClaims.

(** ** The chain cell of the specification's scenario *)

Example chain_message_form_suffix :
  chain_message 3 "region-formA" = "Chain of 3 formA!"
  /\ chain_message 1 "region-formB" = "Chain of 1 formB!"
  /\ chain_message 2 "pikachu" = "Chain of 2 pikachu!".
Proof. repeat split. Qed.

(** ** What the callback leaves untouched after its trigger block *)

Lemma bind_state {S A B : Type} (P : S -> Prop) (m : M S A) (k : A -> M S B) (s : S) :
  P (m s).2 -> (forall a, preserves P (k a)) -> P (bind m k s).2.
Proof.
  intros Hm Hk. unfold bind. destruct (m s) as [[a | e] s']; simpl in *.
  - apply Hk, Hm.
  - exact Hm.
Qed.

Section LegacyTail.

Variable P : Legacy.state -> Prop.
Hypothesis P_print : forall line, preserves P (Legacy.print line).

Lemma legacy_calc_preserves pokemon cp ball berry technique :
  preserves P (Legacy.catchrate_calc pokemon cp ball berry technique).
Proof.
  unfold Legacy.catchrate_calc.
  do 3 (preserve_step; [preserve_step |]).
  destruct (decide _); [preserve_step |].
  do 3 (preserve_step; [preserve_step |]).
  destruct (decide _); [preserve_step |].
  destruct (decide _); preserve_step.
Qed.

Lemma legacy_catch_pokemon_preserves pokemon cp ball berry :
  preserves P (Legacy.catch_pokemon pokemon cp ball berry).
Proof.
  unfold Legacy.catch_pokemon.
  preserve_step; [preserve_step |].
  destruct (negb _); [preserve_step; [apply P_print | preserve_step] |].
  preserve_step; [preserve_step |].
  destruct (negb _); [preserve_step; [apply P_print | preserve_step] |].
  preserve_step; [preserve_step |].
  destruct (negb _); [preserve_step; [apply P_print | preserve_step] |].
  preserve_step; [preserve_step |].
  preserve_step; [| preserve_step].
  preserve_step. preserve_step; [apply legacy_calc_preserves | preserve_step].
Qed.

Lemma legacy_rows_preserves df : preserves P (Legacy.technique_rows df).
Proof.
  unfold Legacy.technique_rows.
  preserve_step.
  - preserve_step. preserve_step; preserve_step.
  - preserve_step. preserve_step; preserve_step.
Qed.

(** The state the callback leaves has every print-insensitive property the
    trigger block established. *)
Lemma legacy_update_after_triggers ev st :
  P (Legacy.update_catchrates_triggers (triggered_id ev) (ev_pokemonname ev)
       (ev_shinyradio ev) st).2 ->
  P (Legacy.step st ev).
Proof.
  intros Ht. unfold Legacy.step, Legacy.update_catchrates. cbv zeta.
  apply bind_state; [exact Ht | intros _].
  preserve_step; [preserve_step |].
  unfold Legacy.get_sprite.
  do 2 (preserve_step; [preserve_step; [preserve_step | preserve_step] |]).
  preserve_step; [apply legacy_catch_pokemon_preserves |].
  preserve_step; [apply legacy_rows_preserves |].
  preserve_step; [preserve_step |].
  preserve_step; preserve_step.
Qed.

End LegacyTail.

Section AppTail.

Variable P : App.state -> Prop.
Hypothesis P_print : forall line, preserves P (App.print line).

Lemma app_calc_preserves pokemon cp ball berry technique :
  preserves P (App.catchrate_calc pokemon cp ball berry technique).
Proof.
  unfold App.catchrate_calc.
  do 3 (preserve_step; [preserve_step |]).
  destruct (decide _); [preserve_step |].
  do 3 (preserve_step; [preserve_step |]).
  destruct (decide _); [preserve_step |].
  destruct (decide _); preserve_step.
Qed.

Lemma app_catch_pokemon_preserves pokemon cp ball berry :
  preserves P (App.catch_pokemon pokemon cp ball berry).
Proof.
  unfold App.catch_pokemon.
  preserve_step; [preserve_step |].
  destruct (negb _); [preserve_step; [apply P_print | preserve_step] |].
  preserve_step; [preserve_step |].
  destruct (negb _); [preserve_step; [apply P_print | preserve_step] |].
  preserve_step; [preserve_step |].
  destruct (negb _); [preserve_step; [apply P_print | preserve_step] |].
  preserve_step; [preserve_step |].
  preserve_step; [| preserve_step].
  preserve_step. preserve_step; [apply app_calc_preserves | preserve_step].
Qed.

Lemma app_rows_preserves df : preserves P (App.technique_rows df).
Proof.
  unfold App.technique_rows.
  preserve_step.
  - preserve_step. preserve_step; preserve_step.
  - preserve_step. preserve_step; preserve_step.
Qed.

Lemma app_tail_preserves ev : preserves P (app_update_tail ev).
Proof.
  unfold app_update_tail.
  preserve_step; [preserve_step |].
  unfold App.get_sprite.
  do 2 (preserve_step; [preserve_step; [preserve_step | preserve_step] |]).
  preserve_step; [apply app_catch_pokemon_preserves |].
  preserve_step; [apply app_rows_preserves |].
  preserve_step; [preserve_step |].
  preserve_step; preserve_step.
Qed.

End AppTail.

(** ** Event sequences: the counter, the tables *)

Lemma bind_eval {S A B : Type} (m : M S A) (k : A -> M S B) (s s' : S) (a : A) :
  m s = (Ok a, s') -> bind m k s = k a s'.
Proof. intros H. unfold bind. rewrite H. reflexivity. Qed.

Lemma bind_raise {S A B : Type} (m : M S A) (k : A -> M S B) (s s' : S) (e : exn) :
  m s = (Raise e, s') -> bind m k s = (Raise e, s').
Proof. intros H. unfold bind. rewrite H. reflexivity. Qed.

Section Runs.

Lemma app_update_unfold ev st :
  App.update_catchrates ev st
  = (App.triggers_handler (triggered_id ev) (ev_pokemonname ev) (ev_shinyradio ev) ;;;
     app_update_tail ev) (app_after_init st).
Proof.
  unfold App.update_catchrates, app_after_init. cbv zeta.
  rewrite (bind_eval _ _ st st (App.INIT_STATE st)) by reflexivity.
  destruct (App.INIT_STATE st).
  - rewrite (bind_eval _ _ st _ tt) by reflexivity. reflexivity.
  - rewrite (bind_eval _ _ st st tt) by reflexivity. reflexivity.
Qed.

Lemma legacy_update_unfold ev st :
  Legacy.update_catchrates ev st
  = (Legacy.update_catchrates_triggers (triggered_id ev) (ev_pokemonname ev)
       (ev_shinyradio ev) ;;;
     legacy_update_tail ev) st.
Proof. reflexivity. Qed.

Lemma app_step_after_triggers (P : App.state -> Prop) ev st :
  (forall line, preserves P (App.print line)) ->
  P (App.triggers_handler (triggered_id ev) (ev_pokemonname ev) (ev_shinyradio ev)
       (app_after_init st)).2 ->
  P (app_step st ev).
Proof.
  intros P_print Ht. unfold app_step. rewrite app_update_unfold.
  apply bind_state; [exact Ht | intros _]. apply app_tail_preserves, P_print.
Qed.

Lemma captures_of_cons pokemon ev evs :
  captures_of pokemon (ev :: evs)
  = (if is_capture_of pokemon ev then 1 else 0) + captures_of pokemon evs.
Proof.
  unfold captures_of. simpl. destruct (is_capture_of pokemon ev); simpl length; lia.
Qed.

Lemma counter_of_insert_counter d name e n q :
  d !! name = Some e ->
  counter_of (<[name := set_times_caught n e]> d) q
  = if String.eqb name q then Some n else counter_of d q.
Proof.
  intros He. unfold counter_of.
  destruct (String.eqb_spec name q) as [-> | Hne].
  - rewrite lookup_insert_eq. reflexivity.
  - rewrite lookup_insert_ne by assumption. reflexivity.
Qed.

Lemma counter_of_insert_shiny d name e v q :
  d !! name = Some e ->
  counter_of (<[name := set_shiny_caught v e]> d) q = counter_of d q.
Proof.
  intros He. unfold counter_of.
  destruct (decide (name = q)) as [-> | Hne].
  - rewrite lookup_insert_eq, He. reflexivity.
  - rewrite lookup_insert_ne by assumption. reflexivity.
Qed.

Lemma counter_plus_zero (c : option Z) : (fun n => n + 0) <$> c = c.
Proof. destruct c; simpl; [f_equal; lia | reflexivity]. Qed.

Lemma legacy_triggers_counter trigger name shinyradio st q :
  counter_of (Legacy.pokemon_dict
                (Legacy.update_catchrates_triggers trigger name shinyradio st).2) q
  = (fun n => n + (if bool_decide (trigger = Some "add1_btn") && String.eqb name q
                   then 1 else 0))
    <$> counter_of (Legacy.pokemon_dict st) q.
Proof.
  unfold Legacy.update_catchrates_triggers.
  destruct (decide (trigger = Some "add1_btn")) as [E | E].
  - rewrite (bool_decide_eq_true_2 _ E). simpl andb.
    unfold bind, subscript, modify, gets.
    destruct (Legacy.pokemon_dict st !! name) as [e |] eqn:He; simpl.
    + rewrite (counter_of_insert_counter _ _ _ _ _ He).
      destruct (String.eqb_spec name q) as [<- | Hne].
      * unfold counter_of. rewrite He. reflexivity.
      * symmetry. apply counter_plus_zero.
    + destruct (String.eqb_spec name q) as [<- | Hne].
      * unfold counter_of. rewrite He. reflexivity.
      * symmetry. apply counter_plus_zero.
  - rewrite (bool_decide_eq_false_2 _ E). simpl andb. rewrite counter_plus_zero.
    destruct (decide _) as [_ | _]; [reflexivity |].
    destruct (decide _) as [_ | _]; [| reflexivity].
    unfold bind, subscript, modify.
    destruct (Legacy.pokemon_dict st !! name) as [e |] eqn:He; simpl; [| reflexivity].
    apply counter_of_insert_shiny, He.
Qed.

Lemma app_triggers_counter trigger name shinyradio st q :
  counter_of (App.pokemon_dict (App.triggers_handler trigger name shinyradio st).2) q
  = (fun n => n + (if bool_decide (trigger = Some "add1_btn") && String.eqb name q
                   then 1 else 0))
    <$> counter_of (App.pokemon_dict st) q.
Proof.
  unfold App.triggers_handler.
  destruct (decide (trigger = Some "add1_btn")) as [E | E].
  - rewrite (bool_decide_eq_true_2 _ E). simpl andb.
    unfold bind, subscript, modify, gets.
    destruct (App.pokemon_dict st !! name) as [e |] eqn:He; simpl.
    + rewrite (counter_of_insert_counter _ _ _ _ _ He).
      destruct (String.eqb_spec name q) as [<- | Hne].
      * unfold counter_of. rewrite He. reflexivity.
      * symmetry. apply counter_plus_zero.
    + destruct (String.eqb_spec name q) as [<- | Hne].
      * unfold counter_of. rewrite He. reflexivity.
      * symmetry. apply counter_plus_zero.
  - rewrite (bool_decide_eq_false_2 _ E). simpl andb. rewrite counter_plus_zero.
    destruct (decide _) as [_ | _]; [reflexivity |].
    destruct (decide _) as [_ | _]; [| reflexivity].
    unfold bind, subscript, modify.
    destruct (App.pokemon_dict st !! name) as [e |] eqn:He; simpl; [| reflexivity].
    apply counter_of_insert_shiny, He.
Qed.

Lemma app_after_init_pokemon_dict st :
  App.pokemon_dict (app_after_init st) = App.pokemon_dict st.
Proof. unfold app_after_init. destruct (App.INIT_STATE st); reflexivity. Qed.

Lemma legacy_step_counter st ev q :
  counter_of (Legacy.pokemon_dict (Legacy.step st ev)) q
  = (fun n => n + (if is_capture_of q ev then 1 else 0))
    <$> counter_of (Legacy.pokemon_dict st) q.
Proof.
  apply (legacy_update_after_triggers
           (fun s => counter_of (Legacy.pokemon_dict s) q
                     = (fun n => n + (if is_capture_of q ev then 1 else 0))
                       <$> counter_of (Legacy.pokemon_dict st) q)).
  - intros line s Hs. exact Hs.
  - apply legacy_triggers_counter.
Qed.

Lemma app_step_counter st ev q :
  counter_of (App.pokemon_dict (app_step st ev)) q
  = (fun n => n + (if is_capture_of q ev then 1 else 0))
    <$> counter_of (App.pokemon_dict st) q.
Proof.
  apply (app_step_after_triggers
           (fun s => counter_of (App.pokemon_dict s) q
                     = (fun n => n + (if is_capture_of q ev then 1 else 0))
                       <$> counter_of (App.pokemon_dict st) q)).
  - intros line s Hs. exact Hs.
  - rewrite app_triggers_counter, app_after_init_pokemon_dict. reflexivity.
Qed.

(** X1: the stored counter of a species counts the clicks on [+] made with
    that species selected, whatever else the events did and whether or not
    their callbacks returned; a species that is not in the database never
    gets a counter. *)
Theorem counter_counts_captures :
  (forall (st : App.state) evs pokemon,
     counter_of (App.pokemon_dict (app_run evs st)) pokemon
     = (fun n => n + captures_of pokemon evs) <$> counter_of (App.pokemon_dict st) pokemon)
  /\
  (forall (st : Legacy.state) evs pokemon,
     counter_of (Legacy.pokemon_dict (Legacy.run evs st)) pokemon
     = (fun n => n + captures_of pokemon evs)
       <$> counter_of (Legacy.pokemon_dict st) pokemon).
Proof.
  split; intros st evs pokemon; revert st;
    (induction evs as [| ev evs IH]; intros st;
     [ unfold captures_of; simpl; symmetry; apply counter_plus_zero |]).
  - change (app_run (ev :: evs) st) with (app_run evs (app_step st ev)).
    rewrite IH, app_step_counter, captures_of_cons.
    destruct (counter_of (App.pokemon_dict st) pokemon); simpl; [f_equal; lia | reflexivity].
  - change (Legacy.run (ev :: evs) st) with (Legacy.run evs (Legacy.step st ev)).
    rewrite IH, legacy_step_counter, captures_of_cons.
    destruct (counter_of (Legacy.pokemon_dict st) pokemon); simpl;
      [f_equal; lia | reflexivity].
Qed.

End Runs.

Section Tables.

Lemma static_insert (d : gmap string pokemon_entry) name e e' :
  d !! name = Some e -> static_fields e' = static_fields e ->
  static_fields <$> <[name := e']> d = static_fields <$> d.
Proof.
  intros He Hs. rewrite fmap_insert, Hs. apply insert_id.
  rewrite lookup_fmap, He. reflexivity.
Qed.

Lemma legacy_triggers_tables trigger name shinyradio st :
  legacy_tables (Legacy.update_catchrates_triggers trigger name shinyradio st).2
  = legacy_tables st.
Proof.
  unfold Legacy.update_catchrates_triggers.
  repeat destruct (decide _) as [_ | _]; unfold bind, subscript, modify, gets, ret;
    try destruct (Legacy.pokemon_dict st !! name) as [e |] eqn:He; simpl; try reflexivity;
    unfold legacy_tables; simpl; rewrite (static_insert _ _ e) by (assumption || reflexivity);
    reflexivity.
Qed.

Lemma app_triggers_tables trigger name shinyradio st :
  app_tables (App.triggers_handler trigger name shinyradio st).2 = app_tables st.
Proof.
  unfold App.triggers_handler.
  repeat destruct (decide _) as [_ | _]; unfold bind, subscript, modify, gets, ret;
    try destruct (App.pokemon_dict st !! name) as [e |] eqn:He; simpl; try reflexivity;
    unfold app_tables; simpl; rewrite (static_insert _ _ e) by (assumption || reflexivity);
    reflexivity.
Qed.

Lemma app_after_init_tables st : app_tables (app_after_init st) = app_tables st.
Proof. unfold app_after_init. destruct (App.INIT_STATE st); reflexivity. Qed.

(** X2: no event sequence changes a ball, technique or berry multiplier, adds
    or removes a species, or changes the base catch rate, cry or sprites of
    one. *)
Theorem tables_never_change :
  (forall (st : App.state) evs, app_tables (app_run evs st) = app_tables st)
  /\ (forall (st : Legacy.state) evs, legacy_tables (Legacy.run evs st) = legacy_tables st).
Proof.
  split; intros st evs; revert st; (induction evs as [| ev evs IH]; intros st;
    [reflexivity |]).
  - change (app_run (ev :: evs) st) with (app_run evs (app_step st ev)).
    rewrite IH.
    apply (app_step_after_triggers (fun s => app_tables s = app_tables st)).
    + intros line s Hs. exact Hs.
    + rewrite app_triggers_tables. apply app_after_init_tables.
  - change (Legacy.run (ev :: evs) st) with (Legacy.run evs (Legacy.step st ev)).
    rewrite IH.
    apply (legacy_update_after_triggers (fun s => legacy_tables s = legacy_tables st)).
    + intros line s Hs. exact Hs.
    + apply legacy_triggers_tables.
Qed.

End Tables.

(** ** The chain text and the streak *)

Section ChainText.

Lemma chain_message_not_sentinel n name : chain_message n name <> "No chain".
Proof. unfold chain_message. simpl. discriminate. Qed.

Lemma legacy_triggers_consistent trigger name shinyradio st :
  Legacy.chaintext_init (Legacy.chain_dict st) = td_normal "No chain" ->
  legacy_chain_consistent (Legacy.chain_dict st) ->
  legacy_chain_consistent
    (Legacy.chain_dict (Legacy.update_catchrates_triggers trigger name shinyradio st).2).
Proof.
  intros Hinit Hc. unfold Legacy.update_catchrates_triggers.
  destruct (decide _) as [_ | _].
  - unfold bind, subscript, modify, gets.
    destruct (Legacy.pokemon_dict st !! name) as [e |]; simpl; [| exact Hc].
    right. simpl.
    assert (Hv : 0 <= Legacy.chainvalue (Legacy.chain_dict st))
      by (destruct Hc as [[-> _] | [H _]]; lia).
    destruct (String.eqb_spec (Legacy.last_catch (Legacy.chain_dict st)) name) as [E | E];
      simpl; try (destruct (decide _) as [_ | Hn]; [| lia]); split; try lia;
      try reflexivity.
    rewrite E. reflexivity.
  - destruct (decide _) as [_ | _].
    + unfold bind, gets, modify. simpl. left. simpl. auto.
    + destruct (decide _) as [_ | _]; [| exact Hc].
      unfold bind, subscript, modify.
      destruct (Legacy.pokemon_dict st !! name); simpl; exact Hc.
Qed.

Lemma legacy_step_consistent st ev :
  Legacy.chaintext_init (Legacy.chain_dict st) = td_normal "No chain" ->
  legacy_chain_consistent (Legacy.chain_dict st) ->
  Legacy.chaintext_init (Legacy.chain_dict (Legacy.step st ev)) = td_normal "No chain"
  /\ legacy_chain_consistent (Legacy.chain_dict (Legacy.step st ev)).
Proof.
  intros Hinit Hc.
  apply (legacy_update_after_triggers
           (fun s => Legacy.chaintext_init (Legacy.chain_dict s) = td_normal "No chain"
                     /\ legacy_chain_consistent (Legacy.chain_dict s))).
  - intros line s Hs. exact Hs.
  - split; [apply (legacy_triggers_keeps _ _ _ _ st Hinit) |].
    apply legacy_triggers_consistent; assumption.
Qed.

Lemma legacy_reachable_consistent st :
  Legacy.reachable st -> legacy_chain_consistent (Legacy.chain_dict st).
Proof.
  intros [st0 [evs [H0 ->]]].
  assert (H : Legacy.chaintext_init (Legacy.chain_dict st0) = td_normal "No chain"
              /\ legacy_chain_consistent (Legacy.chain_dict st0)).
  { rewrite H0. split; [reflexivity | left; split; reflexivity]. }
  clear H0. revert st0 H. induction evs as [| ev evs IH]; intros st0 [Hi Hc].
  - exact Hc.
  - apply IH. apply legacy_step_consistent; assumption.
Qed.

(** X3: in every state [pokemon_catchrate.py] can reach the streak is not
    negative, it is 0 exactly when the chain cell reads "No chain", and a
    positive streak is shown by the bold message of that streak and the last
    species caught: the branch that would show the initial cell after a
    capture is never taken. *)
Theorem legacy_streak_matches_cell (st : Legacy.state) :
  Legacy.reachable st ->
  0 <= Legacy.chainvalue (Legacy.chain_dict st)
  /\ (Legacy.chainvalue (Legacy.chain_dict st) = 0
      <-> td_text (Legacy.chaintext (Legacy.chain_dict st)) = "No chain")
  /\ (1 <= Legacy.chainvalue (Legacy.chain_dict st) ->
      Legacy.chaintext (Legacy.chain_dict st)
      = td_bold (chain_message (Legacy.chainvalue (Legacy.chain_dict st))
                   (Legacy.last_catch (Legacy.chain_dict st)))).
Proof.
  intros Hr. destruct (legacy_reachable_consistent st Hr) as [[Hv Ht] | [Hv Ht]].
  - rewrite Hv, Ht. split; [lia |]. split; [split; reflexivity | lia].
  - split; [lia |]. split; [| intros _; exact Ht].
    rewrite Ht. simpl. split; [lia |].
    intros H. exfalso. exact (chain_message_not_sentinel _ _ H).
Qed.

Lemma legacy_streak_matches_cell_witness :
  let st := Legacy.run [capture_event "pikachu" 100 "pokeball" "none";
                        capture_event "pikachu" 100 "pokeball" "none"] legacy_example in
  0 <= Legacy.chainvalue (Legacy.chain_dict st)
  /\ (Legacy.chainvalue (Legacy.chain_dict st) = 0
      <-> td_text (Legacy.chaintext (Legacy.chain_dict st)) = "No chain")
  /\ (1 <= Legacy.chainvalue (Legacy.chain_dict st) ->
      Legacy.chaintext (Legacy.chain_dict st)
      = td_bold (chain_message (Legacy.chainvalue (Legacy.chain_dict st))
                   (Legacy.last_catch (Legacy.chain_dict st)))).
Proof.
  apply legacy_streak_matches_cell.
  exists legacy_example, [capture_event "pikachu" 100 "pokeball" "none";
                          capture_event "pikachu" 100 "pokeball" "none"].
  split; reflexivity.
Defined.

Lemma app_triggers_cell trigger name shinyradio st :
  td_text (App.chaintext st) = App.chain_chaintext (App.pokemonchain_dict st) ->
  td_text (App.chaintext (App.triggers_handler trigger name shinyradio st).2)
  = App.chain_chaintext
      (App.pokemonchain_dict (App.triggers_handler trigger name shinyradio st).2).
Proof.
  intros H. unfold App.triggers_handler.
  repeat destruct (decide _) as [_ | _]; unfold bind, subscript, modify, gets, ret;
    try destruct (App.pokemon_dict st !! name); simpl; auto.
Qed.

Lemma app_triggers_init trigger name shinyradio st :
  App.INIT_STATE (App.triggers_handler trigger name shinyradio st).2 = App.INIT_STATE st.
Proof.
  unfold App.triggers_handler.
  repeat destruct (decide _) as [_ | _]; unfold bind, subscript, modify, gets, ret;
    try destruct (App.pokemon_dict st !! name); simpl; auto.
Qed.

Lemma app_triggers_consistent trigger name shinyradio st :
  app_chain_consistent (App.pokemonchain_dict st) ->
  app_chain_consistent
    (App.pokemonchain_dict (App.triggers_handler trigger name shinyradio st).2).
Proof.
  intros Hc. unfold App.triggers_handler.
  destruct (decide _) as [_ | _].
  - unfold bind, subscript, modify, gets.
    destruct (App.pokemon_dict st !! name) as [e |]; simpl; [| exact Hc].
    right. simpl.
    assert (Hv : 0 <= App.chain_chainvalue (App.pokemonchain_dict st))
      by (destruct Hc as [[-> _] | [H _]]; lia).
    destruct (String.eqb_spec (App.chain_pokemonname (App.pokemonchain_dict st)) name)
      as [E | E]; simpl; split; try lia; try reflexivity.
    rewrite E. reflexivity.
  - destruct (decide _) as [_ | _].
    + unfold bind, gets, modify. simpl. left. simpl. auto.
    + destruct (decide _) as [_ | _]; [| exact Hc].
      unfold bind, subscript, modify.
      destruct (App.pokemon_dict st !! name); simpl; exact Hc.
Qed.

Lemma app_step_cell st ev :
  App.INIT_STATE st = true
  \/ (App.INIT_STATE st = false
      /\ td_text (App.chaintext st) = App.chain_chaintext (App.pokemonchain_dict st)) ->
  App.INIT_STATE (app_step st ev) = false
  /\ td_text (App.chaintext (app_step st ev))
     = App.chain_chaintext (App.pokemonchain_dict (app_step st ev)).
Proof.
  intros H.
  apply (app_step_after_triggers
           (fun s => App.INIT_STATE s = false
                     /\ td_text (App.chaintext s)
                        = App.chain_chaintext (App.pokemonchain_dict s))).
  - intros line s Hs. exact Hs.
  - rewrite app_triggers_init. split.
    + unfold app_after_init. destruct (App.INIT_STATE st) eqn:Hi; [reflexivity |].
      destruct H as [H | [H _]]; congruence.
    + apply app_triggers_cell. unfold app_after_init.
      destruct (App.INIT_STATE st) eqn:Hi; [reflexivity |].
      destruct H as [H | [_ H]]; [congruence | exact H].
Qed.

Lemma app_step_consistent st ev :
  app_chain_consistent (App.pokemonchain_dict st) ->
  app_chain_consistent (App.pokemonchain_dict (app_step st ev)).
Proof.
  intros Hc.
  apply (app_step_after_triggers (fun s => app_chain_consistent (App.pokemonchain_dict s))).
  - intros line s Hs. exact Hs.
  - apply app_triggers_consistent. unfold app_after_init.
    destruct (App.INIT_STATE st); exact Hc.
Qed.

(** X4: [app.py] starts with [INIT_STATE] set.  After the first event it is
    cleared for good and the chain cell shows the text stored in
    [pokemonchain_dict]; and if the streak and the text loaded from the
    database agree, they agree after every event sequence, so the streak is 0
    exactly when the cell reads "No chain". *)
Theorem app_cell_shows_stored_chain (st : App.state) (evs : list event) :
  App.INIT_STATE st = true -> evs <> [] ->
  App.INIT_STATE (app_run evs st) = false
  /\ td_text (App.chaintext (app_run evs st))
     = App.chain_chaintext (App.pokemonchain_dict (app_run evs st))
  /\ (app_chain_consistent (App.pokemonchain_dict st) ->
      app_chain_consistent (App.pokemonchain_dict (app_run evs st))
      /\ (App.chain_chainvalue (App.pokemonchain_dict (app_run evs st)) = 0
          <-> td_text (App.chaintext (app_run evs st)) = "No chain")).
Proof.
  intros Hi Hne.
  assert (Hcell : forall evs st,
             App.INIT_STATE st = true
             \/ (App.INIT_STATE st = false
                 /\ td_text (App.chaintext st)
                    = App.chain_chaintext (App.pokemonchain_dict st)) ->
             evs <> [] ->
             App.INIT_STATE (app_run evs st) = false
             /\ td_text (App.chaintext (app_run evs st))
                = App.chain_chaintext (App.pokemonchain_dict (app_run evs st))).
  { clear. induction evs as [| ev evs IH]; intros st H Hne; [contradiction |].
    change (app_run (ev :: evs) st) with (app_run evs (app_step st ev)).
    pose proof (app_step_cell st ev H) as Hs.
    destruct evs as [| ev' evs']; [exact Hs |].
    apply IH; [right; exact Hs | discriminate]. }
  assert (Hcons : forall evs st,
             app_chain_consistent (App.pokemonchain_dict st) ->
             app_chain_consistent (App.pokemonchain_dict (app_run evs st))).
  { clear. induction evs as [| ev evs IH]; intros st H; [exact H |].
    apply IH, app_step_consistent, H. }
  destruct (Hcell evs st (or_introl Hi) Hne) as [H1 H2].
  split; [exact H1 |]. split; [exact H2 |].
  intros Hc. pose proof (Hcons evs st Hc) as Hc'. split; [exact Hc' |].
  rewrite H2. destruct Hc' as [[Hv Ht] | [Hv Ht]].
  - rewrite Hv, Ht. split; reflexivity.
  - rewrite Ht. split; [lia |].
    intros H. exfalso. exact (chain_message_not_sentinel _ _ H).
Qed.

Lemma app_cell_shows_stored_chain_witness :
  let st := app_run [capture_event "mewtwo" 100 "pokeball" "none"] app_example in
  App.INIT_STATE st = false
  /\ td_text (App.chaintext st) = App.chain_chaintext (App.pokemonchain_dict st).
Proof.
  destruct (app_cell_shows_stored_chain app_example
              [capture_event "mewtwo" 100 "pokeball" "none"] eq_refl ltac:(discriminate))
    as (H1 & H2 & _).
  split; [exact H1 | exact H2].
Defined.

End ChainText.

(** ** The denominator of the combat-power term *)

Section Denominator.

#[local] Open Scope R_scope.





(** A comprehension over a list that is not empty raises what its body
    raises on the first element. *)
Lemma for_each_raise {S A B : Type} (f : A -> M S B) (x : A) (l : list A) (s : S) e :
  f x s = (Raise e, s) -> for_each f (x :: l) s = (Raise e, s).
Proof. intros H. simpl. apply bind_raise, H. Qed.






Lemma app_catch_pokemon_guards (st : App.state) pokemon cp ball berry entry b y :
  App.pokemon_dict st !! pokemon = Some entry ->
  App.ballrate_dict st !! ball = Some b ->
  App.berry_dict st !! berry = Some y ->
  App.catch_pokemon pokemon cp ball berry st
  = (rows <- for_each
               (fun technique : string * R =>
                  r <- App.catchrate_calc pokemon cp ball berry technique.1 ;;
                  ret (technique.1, r))
               (App.technique_dict st) ;;
     ret (Some rows)) st.
Proof.
  intros Hp Hb Hy. unfold App.catch_pokemon.
  rewrite (bind_eval _ _ st st true)
    by (unfold gets; rewrite Hp, bool_decide_eq_true_2 by eauto; reflexivity).
  cbv beta. change (negb true) with false. cbv iota.
  rewrite (bind_eval _ _ st st true)
    by (unfold gets; rewrite Hb, bool_decide_eq_true_2 by eauto; reflexivity).
  cbv beta. change (negb true) with false. cbv iota.
  rewrite (bind_eval _ _ st st true)
    by (unfold gets; rewrite Hy, bool_decide_eq_true_2 by eauto; reflexivity).
  cbv beta. change (negb true) with false. cbv iota.
  rewrite (bind_eval _ _ st st (App.technique_dict st)) by reflexivity.
  reflexivity.
Qed.

Lemma legacy_catch_pokemon_guards (st : Legacy.state) pokemon cp ball berry entry b y :
  Legacy.pokemon_dict st !! pokemon = Some entry ->
  Legacy.ballrate_dict st !! ball = Some b ->
  Legacy.berry_dict st !! berry = Some y ->
  Legacy.catch_pokemon pokemon cp ball berry st
  = (rows <- for_each
               (fun technique : string * R =>
                  r <- Legacy.catchrate_calc pokemon cp ball berry technique.1 ;;
                  ret (technique.1, r))
               (Legacy.technique_dict st) ;;
     ret (Some rows)) st.
Proof.
  intros Hp Hb Hy. unfold Legacy.catch_pokemon.
  rewrite (bind_eval _ _ st st true)
    by (unfold gets; rewrite Hp, bool_decide_eq_true_2 by eauto; reflexivity).
  cbv beta. change (negb true) with false. cbv iota.
  rewrite (bind_eval _ _ st st true)
    by (unfold gets; rewrite Hb, bool_decide_eq_true_2 by eauto; reflexivity).
  cbv beta. change (negb true) with false. cbv iota.
  rewrite (bind_eval _ _ st st true)
    by (unfold gets; rewrite Hy, bool_decide_eq_true_2 by eauto; reflexivity).
  cbv beta. change (negb true) with false. cbv iota.
  rewrite (bind_eval _ _ st st (Legacy.technique_dict st)) by reflexivity.
  reflexivity.
Qed.





End Denominator.

(** ** The probability as a function of the species, the counter and the
    combat power *)

Section MonotoneAll.

#[local] Open Scope R_scope.









End MonotoneAll.

(** ** Where the clamp binds *)

Section Clamp.

#[local] Open Scope R_scope.

Lemma pow_gt_one (x e : R) : 0 < e -> 1 < x -> 1 < Py.pow x e.
Proof.
  intros He Hx. rewrite <- (pow_one e). unfold Py.pow.
  apply Rlt_Rpower_l; lra.
Qed.

Lemma pow_le_one (x e : R) : 0 <= e -> 0 < x <= 1 -> Py.pow x e <= 1.
Proof. intros He Hx. rewrite <- (pow_one e). apply pow_mono; lra. Qed.

Lemma app_percent_saturated (a : R) : 255 <= a -> App.percent (App.residual a) = 100.
Proof.
  intros Ha. unfold App.percent, App.residual. cbv zeta.
  assert (Hx : 0 < 255 / a <= 1).
  { split; [apply Rdiv_lt_0_compat; lra |].
    apply (Rmult_le_reg_r a); [lra |]. unfold Rdiv. rewrite Rmult_assoc, Rinv_l; lra. }
  pose proof (pow_le_one (255 / a) (1 / 5.33) ltac:(lra) Hx) as Hw.
  pose proof (pow_pos (255 / a) (1 / 5.33)) as Hwp.
  destruct (div_bounds 65535 (Py.pow (255 / a) (1 / 5.33)) (Py.pow (255 / a) (1 / 5.33)) 1)
    as [Lb _]; try lra.
  rewrite min_l by lra.
  replace 100 with (IZR 10000 / 100) by lra. apply round2_cents.
Qed.

Lemma app_percent_unclamped (a : R) :
  0 < a < 255 ->
  App.residual a / 65535 * 100 < 100
  /\ App.percent (App.residual a) = Py.round2 (App.residual a / 65535 * 100).
Proof.
  intros [Ha Hlt]. unfold App.percent, App.residual. cbv zeta.
  assert (Hx : 1 < 255 / a).
  { apply (Rmult_lt_reg_r a); [lra |]. unfold Rdiv. rewrite Rmult_assoc, Rinv_l; lra. }
  pose proof (pow_gt_one (255 / a) (1 / 5.33) ltac:(lra) Hx) as Hw.
  assert (Hb : 65535 / Py.pow (255 / a) (1 / 5.33) < 65535).
  { apply (Rmult_lt_reg_r (Py.pow (255 / a) (1 / 5.33))); [lra |].
    unfold Rdiv. rewrite Rmult_assoc, Rinv_l by lra. lra. }
  split; [lra |]. rewrite min_r by lra. reflexivity.
Qed.

Lemma legacy_percent_unclamped (b : R) :
  0 < b ->
  (1 - b / 65536) * 100 < 100
  /\ Legacy.percent b = Py.round2 ((1 - b / 65536) * 100).
Proof.
  intros Hb. unfold Legacy.percent. cbv zeta.
  assert (H : (1 - b / 65536) * 100 < 100) by lra.
  split; [exact H |]. rewrite min_r by lra. reflexivity.
Qed.

(** X9: in [app.py] the clamp [min(100, catch_rate)] binds exactly from a
    scale factor [a] of 255 on: for a valid input with moderate table
    entries whose combat power converts to a float, with [a >= 255] the
    returned probability is 100, and with [a < 255] the value before the
    clamp is below 100 and is returned rounded.  In [pokemon_catchrate.py]
    the value before the clamp is below 100 on every such input, so the
    clamp never binds. *)
Theorem clamp_binds_from_255 :
  (forall (st : App.state) pokemon (cp : Z) ball berry technique entry b t y,
     resolved (App.pokemon_dict st) (App.ballrate_dict st) (App.technique_dict st)
       (App.berry_dict st) pokemon ball berry technique entry b t y ->
     moderate_entries entry b t y ->
     (0 < cp < float_max_int)%Z ->
     let a := App.scale_factor (catch_rate entry)
                (App.cp_denominator (Z.min 100 (times_caught entry)) cp) b t y in
     (255 <= a ->
      App.catchrate_calc pokemon cp ball berry technique st = (Ok 100, st))
     /\ (a < 255 ->
         App.residual a / 65535 * 100 < 100
         /\ App.catchrate_calc pokemon cp ball berry technique st
            = (Ok (Py.round2 (App.residual a / 65535 * 100)), st)))
  /\
  (forall (st : Legacy.state) pokemon (cp : Z) ball berry technique entry b t y,
     resolved (Legacy.pokemon_dict st) (Legacy.ballrate_dict st)
       (Legacy.technique_dict st) (Legacy.berry_dict st)
       pokemon ball berry technique entry b t y ->
     moderate_entries entry b t y ->
     (0 < cp < float_max_int)%Z ->
     let r := Legacy.residual
                (Legacy.scale_factor (catch_rate entry)
                   (Legacy.cp_denominator (Z.min 100 (times_caught entry)) cp) b t y) in
     (1 - r / 65536) * 100 < 100
     /\ Legacy.catchrate_calc pokemon cp ball berry technique st
        = (Ok (Py.round2 ((1 - r / 65536) * 100)), st)).
Proof.
  split.
  - intros st pokemon cp ball berry technique entry b t y Hres _ Hcp. cbv zeta.
    rewrite (app_calc_resolved st _ cp _ _ _ _ _ _ _ Hres ltac:(lia)).
    split; intros Ha.
    + rewrite app_percent_saturated by exact Ha. reflexivity.
    + destruct (app_percent_unclamped _ (conj (app_scale_pos _ _ _ _ _) Ha)) as [H1 H2].
      split; [exact H1 |]. rewrite H2. reflexivity.
  - intros st pokemon cp ball berry technique entry b t y Hres _ Hcp. cbv zeta.
    rewrite (legacy_calc_resolved st _ cp _ _ _ _ _ _ _ Hres ltac:(lia)).
    destruct (legacy_percent_unclamped _ (legacy_residual_pos
               (Legacy.scale_factor (catch_rate entry)
                  (Legacy.cp_denominator (Z.min 100 (times_caught entry)) cp) b t y)))
      as [H1 H2].
    split; [exact H1 |]. rewrite H2. reflexivity.
Qed.

Lemma example_saturated_scale :
  255 <= App.scale_factor 75 (App.cp_denominator (Z.min 100 120) 500) 2 1.5 1.5.
Proof.
  rewrite full_counter_denominator by lia. unfold App.scale_factor.
  apply Rle_trans with (1.25 * 10 * 10 * (14 / 5) * (3 / 2)); [lra |].
  apply product_le; try lra; (split; [lra |]).
  - replace 75 with (IZR 75 / IZR 1) by lra. replace 10 with (IZR 10 / IZR 1) by lra.
    apply (pow_ge_ratio _ _ _ _ _ 20 37); try lia;
      [rewrite !INR_IZR_INZ; change (Z.of_nat 37) with 37%Z;
       change (Z.of_nat 20) with 20%Z; lra
      | vm_compute; reflexivity].
  - rewrite fourth_root_10000. lra.
  - replace 2 with (IZR 2 / IZR 1) by lra. replace (14 / 5) with (IZR 14 / IZR 5) by lra.
    apply (pow_ge_ratio _ _ _ _ _ 3 2); try lia;
      [rewrite !INR_IZR_INZ; change (Z.of_nat 2) with 2%Z;
       change (Z.of_nat 3) with 3%Z; lra
      | vm_compute; reflexivity].
  - replace (1.5 * 1.5) with (IZR 9 / IZR 4) by lra.
    replace (3 / 2) with (IZR 3 / IZR 2) by lra.
    apply (pow_ge_ratio _ _ _ _ _ 1 2); try lia;
      [rewrite !INR_IZR_INZ; change (Z.of_nat 2) with 2%Z;
       change (Z.of_nat 1) with 1%Z; lra
      | vm_compute; reflexivity].
Qed.

Lemma clamp_binds_from_255_witness :
  App.catchrate_calc "alola-raichu" 500 "ultraball" "razz" "Excellent" app_example
  = (Ok 100, app_example).
Proof.
  apply (proj1 clamp_binds_from_255 app_example "alola-raichu" 500%Z
           "ultraball" "razz" "Excellent" (example_entry 75 120) 2 1.5 1.5).
  - constructor; simpl; try reflexivity; try lra; lia.
  - constructor; unfold moderate; simpl; lra.
  - split; [lia | reflexivity].
  - apply example_saturated_scale.
Defined.

End Clamp.

(** ** The frame of a valid call *)

Section Frame.

#[local] Open Scope R_scope.




End Frame.

(** ** The displayed name and the ring tiers *)

Section Display.

#[local] Open Scope list_scope.

Lemma split_dash_not_nil (s : string) : split_dash s <> [].
Proof.
  induction s as [| c s IH]; simpl; [discriminate |].
  destruct (Ascii.eqb c "-"); [discriminate |].
  destruct (split_dash s); discriminate.
Qed.

Lemma last_app_not_nil {A : Type} (l l' : list A) (d : A) :
  l' <> [] -> List.last (l ++ l') d = List.last l' d.
Proof.
  intros Hne. induction l as [| x l IH]; [reflexivity |].
  simpl. destruct (l ++ l') eqn:E; [| exact IH].
  destruct l; simpl in E; [contradiction | discriminate].
Qed.

Lemma split_dash_separator (p q : string) :
  split_dash (p +:+ "-" +:+ q) = split_dash p ++ split_dash q.
Proof.
  induction p as [| c p IH]; [reflexivity |].
  change (String c p +:+ "-" +:+ q) with (String c (p +:+ "-" +:+ q)).
  simpl. rewrite IH. destruct (Ascii.eqb c "-"); [reflexivity |].
  pose proof (split_dash_not_nil p) as Hp.
  destruct (split_dash p) as [| piece pieces]; [contradiction | reflexivity].
Qed.

Lemma split_dash_plain (s : string) : contains_dash s = false -> split_dash s = [s].
Proof.
  induction s as [| c s IH]; intros H; [reflexivity |].
  simpl in *. apply orb_false_iff in H as [Hc Hs]. rewrite Hc, (IH Hs). reflexivity.
Qed.

Lemma split_dash_pieces_plain (s : string) :
  Forall (fun piece => contains_dash piece = false) (split_dash s).
Proof.
  induction s as [| c s IH]; simpl; [repeat constructor |].
  destruct (Ascii.eqb c "-") eqn:Hc; [constructor; [reflexivity | exact IH] |].
  destruct (split_dash s) as [| piece pieces]; [repeat constructor; simpl; rewrite Hc; reflexivity |].
  inversion IH as [| ? ? Hpiece Hpieces]; subst.
  constructor; [simpl; rewrite Hc, Hpiece; reflexivity | exact Hpieces].
Qed.

Lemma last_in_not_nil {A : Type} (l : list A) (d : A) : l <> [] -> In (List.last l d) l.
Proof.
  induction l as [| x l IH]; intros Hne; [contradiction |].
  destruct l as [| y l]; [left; reflexivity |].
  right. apply IH. discriminate.
Qed.

(** X11: the name shown in the chain message is the part of the species
    identifier after its last ["-"]: splitting [p-q] gives the pieces of [p]
    followed by the pieces of [q], so the shown name of [p-q] is the shown
    name of [q]; an identifier without ["-"] is shown whole; and the shown
    name never contains a ["-"]. *)
Theorem display_name_is_last_piece (p q : string) :
  split_dash (p +:+ "-" +:+ q) = split_dash p ++ split_dash q
  /\ display_name (p +:+ "-" +:+ q) = display_name q
  /\ (contains_dash q = false -> display_name (p +:+ "-" +:+ q) = q)
  /\ (contains_dash q = false -> display_name q = q)
  /\ contains_dash (display_name q) = false.
Proof.
  assert (Hlast : display_name (p +:+ "-" +:+ q) = display_name q).
  { unfold display_name. rewrite split_dash_separator.
    apply last_app_not_nil, split_dash_not_nil. }
  assert (Hplain : contains_dash q = false -> display_name q = q).
  { intros H. unfold display_name. rewrite (split_dash_plain q H). reflexivity. }
  split; [apply split_dash_separator |]. split; [exact Hlast |].
  split; [intros H; rewrite Hlast; exact (Hplain H) |]. split; [exact Hplain |].
  unfold display_name.
  pose proof (split_dash_pieces_plain q) as Hall.
  rewrite List.Forall_forall in Hall. apply Hall.
  apply last_in_not_nil, split_dash_not_nil.
Qed.

Lemma display_name_is_last_piece_witness :
  display_name ("kanto-alola" +:+ "-" +:+ "raichu") = "raichu"
  /\ display_name "pikachu" = "pikachu".
Proof.
  split.
  - apply (proj1 (proj2 (proj2 (display_name_is_last_piece "kanto-alola" "raichu")))).
    reflexivity.
  - apply (proj1 (proj2 (proj2 (proj2 (display_name_is_last_piece "" "pikachu"))))).
    reflexivity.
Defined.

#[local] Open Scope R_scope.

(** X12: the ring colour is one of red, orange, gold and green, and a larger
    probability never gets a lower tier. *)
Theorem catchring_color_ordered (p q : R) :
  p <= q ->
  (tier_rank (catchring_color p) <= tier_rank (catchring_color q))%nat
  /\ (catchring_color p = "red" \/ catchring_color p = "orange"
      \/ catchring_color p = "gold" \/ catchring_color p = "green").
Proof.
  intros Hpq. unfold catchring_color. cbv zeta.
  destruct (decide (p < 70)), (decide (q < 70));
    destruct (bool_decide_reflect (70 <= p)), (bool_decide_reflect (p < 75)),
             (bool_decide_reflect (75 <= p)), (bool_decide_reflect (p < 80)),
             (bool_decide_reflect (70 <= q)), (bool_decide_reflect (q < 75)),
             (bool_decide_reflect (75 <= q)), (bool_decide_reflect (q < 80));
    simpl; try lra; split; try (unfold tier_rank; simpl; lia); auto.
Qed.

Lemma catchring_color_ordered_witness :
  (tier_rank (catchring_color 72.5) <= tier_rank (catchring_color 77.87))%nat.
Proof.
  apply (catchring_color_ordered 72.5 77.87). lra.
Defined.

End Display.

(** ** Streaks over event sequences *)

Section Streaks.

Lemma legacy_step_chain st ev :
  Legacy.chain_dict (Legacy.step st ev)
  = Legacy.chain_dict
      (Legacy.update_catchrates_triggers (triggered_id ev) (ev_pokemonname ev)
         (ev_shinyradio ev) st).2.
Proof.
  apply (legacy_update_after_triggers
           (fun s => Legacy.chain_dict s
                     = Legacy.chain_dict
                         (Legacy.update_catchrates_triggers (triggered_id ev)
                            (ev_pokemonname ev) (ev_shinyradio ev) st).2)).
  - intros line s Hs. exact Hs.
  - reflexivity.
Qed.

Lemma app_step_chain st ev :
  App.pokemonchain_dict (app_step st ev)
  = App.pokemonchain_dict
      (App.triggers_handler (triggered_id ev) (ev_pokemonname ev)
         (ev_shinyradio ev) (app_after_init st)).2
  /\ App.chaintext (app_step st ev)
     = App.chaintext
         (App.triggers_handler (triggered_id ev) (ev_pokemonname ev)
            (ev_shinyradio ev) (app_after_init st)).2.
Proof.
  apply (app_step_after_triggers
           (fun s => App.pokemonchain_dict s
                     = App.pokemonchain_dict
                         (App.triggers_handler (triggered_id ev) (ev_pokemonname ev)
                            (ev_shinyradio ev) (app_after_init st)).2
                     /\ App.chaintext s
                        = App.chaintext
                            (App.triggers_handler (triggered_id ev) (ev_pokemonname ev)
                               (ev_shinyradio ev) (app_after_init st)).2)).
  - intros line s Hs. exact Hs.
  - split; reflexivity.
Qed.

Lemma counter_known (d d' : gmap string pokemon_entry) (f : Z -> Z) q :
  counter_of d' q = f <$> counter_of d q -> is_Some (d !! q) -> is_Some (d' !! q).
Proof.
  unfold counter_of. intros H [e He]. rewrite He in H. simpl in H.
  destruct (d' !! q); [eauto | discriminate].
Qed.

Lemma legacy_capture_step st A cp ball berry :
  is_Some (Legacy.pokemon_dict st !! A) ->
  let st' := Legacy.step st (capture_event A cp ball berry) in
  is_Some (Legacy.pokemon_dict st' !! A)
  /\ Legacy.last_catch (Legacy.chain_dict st') = A
  /\ Legacy.chainvalue (Legacy.chain_dict st')
     = (if String.eqb (Legacy.last_catch (Legacy.chain_dict st)) A
        then Legacy.chainvalue (Legacy.chain_dict st) else 0) + 1
  /\ (0 <= Legacy.chainvalue (Legacy.chain_dict st) ->
      Legacy.chaintext (Legacy.chain_dict st')
      = td_bold (chain_message (Legacy.chainvalue (Legacy.chain_dict st')) A)).
Proof.
  intros HA. cbv zeta. split.
  - exact (counter_known _ _ _ _ (legacy_step_counter st _ A) HA).
  - rewrite legacy_step_chain. simpl triggered_id. simpl ev_pokemonname.
    destruct HA as [e He]. unfold Legacy.update_catchrates_triggers.
    destruct (decide _) as [_ | Hn]; [| congruence].
    unfold bind, subscript, modify, gets. rewrite He. simpl.
    destruct (String.eqb_spec (Legacy.last_catch (Legacy.chain_dict st)) A) as [E | E];
      simpl; repeat split; auto; intros Hv;
      try (destruct (decide _) as [_ | Hn]; [reflexivity | lia]).
Qed.

Lemma app_capture_step st A cp ball berry :
  is_Some (App.pokemon_dict st !! A) ->
  let st' := app_step st (capture_event A cp ball berry) in
  is_Some (App.pokemon_dict st' !! A)
  /\ App.chain_pokemonname (App.pokemonchain_dict st') = A
  /\ App.chain_chainvalue (App.pokemonchain_dict st')
     = (if String.eqb (App.chain_pokemonname (App.pokemonchain_dict st)) A
        then App.chain_chainvalue (App.pokemonchain_dict st) else 0) + 1
  /\ App.chaintext st'
     = td_bold (chain_message (App.chain_chainvalue (App.pokemonchain_dict st')) A).
Proof.
  intros HA. cbv zeta. split.
  - exact (counter_known _ _ _ _ (app_step_counter st _ A) HA).
  - destruct (app_step_chain st (capture_event A cp ball berry)) as [-> ->].
    simpl triggered_id. simpl ev_pokemonname.
    destruct HA as [e He]. rewrite <- app_after_init_pokemon_dict in He.
    assert (Hc : App.pokemonchain_dict (app_after_init st) = App.pokemonchain_dict st)
      by (unfold app_after_init; destruct (App.INIT_STATE st); reflexivity).
    unfold App.triggers_handler.
    destruct (decide _) as [_ | Hn]; [| congruence].
    unfold bind, subscript, modify, gets. rewrite He. simpl. rewrite Hc.
    destruct (String.eqb_spec (App.chain_pokemonname (App.pokemonchain_dict st)) A)
      as [E | E]; simpl; repeat split; auto.
Qed.

(** X13: [n] clicks on [+] in a row with species [A] selected, a species of
    the database, leave a streak of [n] more than the streak [A] had (none
    if [A] was not the last species caught), [A] as the last species and the
    bold message of that streak in the chain cell; whatever combat power,
    ball and berry were selected, and whether or not the callbacks
    returned. *)
Theorem consecutive_captures_streak :
  (forall (st : App.state) A cp ball berry (n : nat),
     is_Some (App.pokemon_dict st !! A) -> (1 <= n)%nat ->
     let st' := app_run (replicate n (capture_event A cp ball berry)) st in
     App.chain_chainvalue (App.pokemonchain_dict st')
     = (if String.eqb (App.chain_pokemonname (App.pokemonchain_dict st)) A
        then App.chain_chainvalue (App.pokemonchain_dict st) else 0) + Z.of_nat n
     /\ App.chain_pokemonname (App.pokemonchain_dict st') = A
     /\ App.chaintext st'
        = td_bold (chain_message (App.chain_chainvalue (App.pokemonchain_dict st')) A))
  /\
  (forall (st : Legacy.state) A cp ball berry (n : nat),
     is_Some (Legacy.pokemon_dict st !! A) -> (1 <= n)%nat ->
     0 <= Legacy.chainvalue (Legacy.chain_dict st) ->
     let st' := Legacy.run (replicate n (capture_event A cp ball berry)) st in
     Legacy.chainvalue (Legacy.chain_dict st')
     = (if String.eqb (Legacy.last_catch (Legacy.chain_dict st)) A
        then Legacy.chainvalue (Legacy.chain_dict st) else 0) + Z.of_nat n
     /\ Legacy.last_catch (Legacy.chain_dict st') = A
     /\ Legacy.chaintext (Legacy.chain_dict st')
        = td_bold (chain_message (Legacy.chainvalue (Legacy.chain_dict st')) A)).
Proof.
  split.
  - intros st A cp ball berry n HA Hn. cbv zeta.
    destruct n as [| n]; [lia |]. clear Hn. revert st HA.
    induction n as [| n IH]; intros st HA.
    + destruct (app_capture_step st A cp ball berry HA) as (_ & HL & HV & HT).
      change (app_run (replicate 1 (capture_event A cp ball berry)) st)
        with (app_step st (capture_event A cp ball berry)).
      rewrite HT, HL, HV. repeat split.
    + change (app_run (replicate (S (S n)) (capture_event A cp ball berry)) st)
        with (app_run (replicate (S n) (capture_event A cp ball berry))
                (app_step st (capture_event A cp ball berry))).
      destruct (app_capture_step st A cp ball berry HA) as (HK & HL & HV & HT).
      destruct (IH _ HK) as (IV & IL & IT).
      rewrite IV, HL, String.eqb_refl, HV. repeat split; auto.
      * lia.
      * rewrite IT, IV, HL, String.eqb_refl, HV. reflexivity.
  - intros st A cp ball berry n HA Hn Hv. cbv zeta.
    destruct n as [| n]; [lia |]. clear Hn. revert st HA Hv.
    induction n as [| n IH]; intros st HA Hv.
    + destruct (legacy_capture_step st A cp ball berry HA) as (_ & HL & HV & HT).
      change (Legacy.run (replicate 1 (capture_event A cp ball berry)) st)
        with (Legacy.step st (capture_event A cp ball berry)).
      rewrite (HT Hv), HL, HV. repeat split.
    + change (Legacy.run (replicate (S (S n)) (capture_event A cp ball berry)) st)
        with (Legacy.run (replicate (S n) (capture_event A cp ball berry))
                (Legacy.step st (capture_event A cp ball berry))).
      destruct (legacy_capture_step st A cp ball berry HA) as (HK & HL & HV & HT).
      assert (Hv' : 0 <= Legacy.chainvalue
                          (Legacy.chain_dict (Legacy.step st (capture_event A cp ball berry)))).
      { rewrite HV. destruct (String.eqb _ _); lia. }
      destruct (IH _ HK Hv') as (IV & IL & IT).
      rewrite IV, HL, String.eqb_refl, HV. repeat split; auto.
      * lia.
      * rewrite IT, IV, HL, String.eqb_refl, HV. reflexivity.
Qed.

Lemma consecutive_captures_streak_witness :
  let st' := Legacy.run (replicate 3 (capture_event "alola-raichu" 100 "pokeball" "none"))
               legacy_example in
  Legacy.chainvalue (Legacy.chain_dict st') = 3
  /\ Legacy.last_catch (Legacy.chain_dict st') = "alola-raichu"
  /\ Legacy.chaintext (Legacy.chain_dict st') = td_bold "Chain of 3 raichu!".
Proof.
  cbv zeta.
  destruct (proj2 consecutive_captures_streak legacy_example "alola-raichu" 100
              "pokeball" "none" 3%nat) as (HV & HL & HT).
  - eexists. reflexivity.
  - lia.
  - simpl. lia.
  - split; [rewrite HV; reflexivity |]. split; [exact HL |].
    rewrite HT, HV. reflexivity.
Defined.

End Streaks.

(** ** What the callback returns and how it fails *)

Section Callback.

#[local] Open Scope R_scope.



Lemma app_triggers_returns trigger name shinyradio st :
  is_Some (App.pokemon_dict st !! name) ->
  (App.triggers_handler trigger name shinyradio st).1 = Ok tt.
Proof.
  intros [e He]. unfold App.triggers_handler.
  repeat destruct (decide _) as [_ | _]; unfold bind, subscript, modify, gets, ret;
    rewrite ?He; reflexivity.
Qed.

Lemma legacy_triggers_returns trigger name shinyradio st :
  is_Some (Legacy.pokemon_dict st !! name) ->
  (Legacy.update_catchrates_triggers trigger name shinyradio st).1 = Ok tt.
Proof.
  intros [e He]. unfold Legacy.update_catchrates_triggers.
  repeat destruct (decide _) as [_ | _]; unfold bind, subscript, modify, gets, ret;
    rewrite ?He; reflexivity.
Qed.

Lemma app_triggers_stdout trigger name shinyradio st :
  App.stdout (App.triggers_handler trigger name shinyradio st).2 = App.stdout st.
Proof.
  unfold App.triggers_handler.
  repeat destruct (decide _) as [_ | _]; unfold bind, subscript, modify, gets, ret;
    try destruct (App.pokemon_dict st !! name); reflexivity.
Qed.

Lemma legacy_triggers_stdout trigger name shinyradio st :
  Legacy.stdout (Legacy.update_catchrates_triggers trigger name shinyradio st).2
  = Legacy.stdout st.
Proof.
  unfold Legacy.update_catchrates_triggers.
  repeat destruct (decide _) as [_ | _]; unfold bind, subscript, modify, gets, ret;
    try destruct (Legacy.pokemon_dict st !! name); reflexivity.
Qed.

Lemma pair_eta {A B : Type} (x : A * B) (a : A) : x.1 = a -> x = (a, x.2).
Proof. destruct x; simpl; intros ->; reflexivity. Qed.








End Callback.

Section CallbackErrors.

Lemma app_triggers_raises trigger name shinyradio st e s' :
  App.triggers_handler trigger name shinyradio st = (Raise e, s') ->
  e = KeyError name /\ s' = st.
Proof.
  unfold App.triggers_handler.
  repeat destruct (decide _) as [_ | _]; unfold bind, subscript, modify, gets, ret;
    try destruct (App.pokemon_dict st !! name); simpl; intros H; inversion H; auto.
Qed.

Lemma legacy_triggers_raises trigger name shinyradio st e s' :
  Legacy.update_catchrates_triggers trigger name shinyradio st = (Raise e, s') ->
  e = KeyError name /\ s' = st.
Proof.
  unfold Legacy.update_catchrates_triggers.
  repeat destruct (decide _) as [_ | _]; unfold bind, subscript, modify, gets, ret;
    try destruct (Legacy.pokemon_dict st !! name); simpl; intros H; inversion H; auto.
Qed.

Lemma app_triggers_unknown trigger name shinyradio st :
  App.pokemon_dict st !! name = None ->
  App.pokemon_dict (App.triggers_handler trigger name shinyradio st).2 = App.pokemon_dict st
  /\ (trigger <> Some "resetchain_btn" ->
      (App.triggers_handler trigger name shinyradio st).2 = st)
  /\ (trigger = Some "resetchain_btn" ->
      App.chain_chainvalue
        (App.pokemonchain_dict (App.triggers_handler trigger name shinyradio st).2) = 0).
Proof.
  intros Hn. unfold App.triggers_handler.
  destruct (decide (trigger = Some "add1_btn")) as [E1 | E1].
  - unfold bind, subscript. rewrite Hn. simpl. repeat split. intros E. congruence.
  - destruct (decide (trigger = Some "resetchain_btn")) as [E2 | E2].
    + unfold bind, gets, modify. simpl. repeat split. intros E. contradiction.
    + destruct (decide _) as [_ | _].
      * unfold bind, subscript. rewrite Hn. simpl. repeat split. intros E. contradiction.
      * simpl. repeat split. intros E. contradiction.
Qed.

Lemma legacy_triggers_unknown trigger name shinyradio st :
  Legacy.pokemon_dict st !! name = None ->
  Legacy.pokemon_dict (Legacy.update_catchrates_triggers trigger name shinyradio st).2
  = Legacy.pokemon_dict st
  /\ (trigger <> Some "resetchain_btn" ->
      (Legacy.update_catchrates_triggers trigger name shinyradio st).2 = st)
  /\ (trigger = Some "resetchain_btn" ->
      Legacy.chainvalue
        (Legacy.chain_dict (Legacy.update_catchrates_triggers trigger name shinyradio st).2)
      = 0).
Proof.
  intros Hn. unfold Legacy.update_catchrates_triggers.
  destruct (decide (trigger = Some "add1_btn")) as [E1 | E1].
  - unfold bind, subscript. rewrite Hn. simpl. repeat split. intros E. congruence.
  - destruct (decide (trigger = Some "resetchain_btn")) as [E2 | E2].
    + unfold bind, gets, modify. simpl. repeat split. intros E. contradiction.
    + destruct (decide _) as [_ | _].
      * unfold bind, subscript. rewrite Hn. simpl. repeat split. intros E. contradiction.
      * simpl. repeat split. intros E. contradiction.
Qed.

Lemma app_tail_unknown ev (s : App.state) :
  App.pokemon_dict s !! ev_pokemonname ev = None ->
  app_update_tail ev s = (Raise (KeyError (ev_pokemonname ev)), s).
Proof.
  intros Hn. unfold app_update_tail. apply bind_raise.
  unfold subscript. rewrite Hn. reflexivity.
Qed.

Lemma legacy_tail_unknown ev (s : Legacy.state) :
  Legacy.pokemon_dict s !! ev_pokemonname ev = None ->
  legacy_update_tail ev s = (Raise (KeyError (ev_pokemonname ev)), s).
Proof.
  intros Hn. unfold legacy_update_tail. apply bind_raise.
  unfold subscript. rewrite Hn. reflexivity.
Qed.

(** X15: with a selected species that is not in the database the callback
    raises [KeyError] with the species identifier, whichever control fired,
    and the counters are untouched.  Unless the control was the reset button
    the state is exactly the state the callback started from (in [app.py],
    after the first-event initialisation); the reset button has reset the
    streak before the error. *)
Theorem callback_unknown_species :
  (forall ev (st : App.state),
     App.pokemon_dict st !! ev_pokemonname ev = None ->
     (App.update_catchrates ev st).1 = Raise (KeyError (ev_pokemonname ev))
     /\ App.pokemon_dict (App.update_catchrates ev st).2 = App.pokemon_dict st
     /\ (triggered_id ev <> Some "resetchain_btn" ->
         (App.update_catchrates ev st).2 = app_after_init st)
     /\ (triggered_id ev = Some "resetchain_btn" ->
         App.chain_chainvalue (App.pokemonchain_dict (App.update_catchrates ev st).2) = 0))
  /\
  (forall ev (st : Legacy.state),
     Legacy.pokemon_dict st !! ev_pokemonname ev = None ->
     (Legacy.update_catchrates ev st).1 = Raise (KeyError (ev_pokemonname ev))
     /\ Legacy.pokemon_dict (Legacy.update_catchrates ev st).2 = Legacy.pokemon_dict st
     /\ (triggered_id ev <> Some "resetchain_btn" ->
         (Legacy.update_catchrates ev st).2 = st)
     /\ (triggered_id ev = Some "resetchain_btn" ->
         Legacy.chainvalue (Legacy.chain_dict (Legacy.update_catchrates ev st).2) = 0)).
Proof.
  split; intros ev st Hn.
  - rewrite app_update_unfold. rewrite <- app_after_init_pokemon_dict in Hn.
    destruct (app_triggers_unknown (triggered_id ev) (ev_pokemonname ev) (ev_shinyradio ev)
                (app_after_init st) Hn) as (Hd & Hsame & Hreset).
    rewrite app_after_init_pokemon_dict in Hd.
    destruct (App.triggers_handler (triggered_id ev) (ev_pokemonname ev) (ev_shinyradio ev)
                (app_after_init st)) as [[[] | e] s1] eqn:Hrun; simpl in *.
    + rewrite (bind_eval _ _ _ s1 tt Hrun).
      rewrite app_tail_unknown
        by (rewrite Hd, <- (app_after_init_pokemon_dict st); exact Hn).
      simpl. auto.
    + destruct (app_triggers_raises _ _ _ _ _ _ Hrun) as [-> ->].
      rewrite (bind_raise _ _ _ _ _ Hrun). simpl. auto.
  - rewrite legacy_update_unfold.
    destruct (legacy_triggers_unknown (triggered_id ev) (ev_pokemonname ev)
                (ev_shinyradio ev) st Hn) as (Hd & Hsame & Hreset).
    destruct (Legacy.update_catchrates_triggers (triggered_id ev) (ev_pokemonname ev)
                (ev_shinyradio ev) st) as [[[] | e] s1] eqn:Hrun; simpl in *.
    + rewrite (bind_eval _ _ _ s1 tt Hrun).
      rewrite legacy_tail_unknown by (rewrite Hd; exact Hn).
      simpl. auto.
    + destruct (legacy_triggers_raises _ _ _ _ _ _ Hrun) as [-> ->].
      rewrite (bind_raise _ _ _ _ _ Hrun). simpl. auto.
Qed.

Lemma callback_unknown_species_witness :
  (Legacy.update_catchrates (capture_event "missingno" 100 "pokeball" "none")
     legacy_example).1 = Raise (KeyError "missingno")
  /\ (Legacy.update_catchrates (capture_event "missingno" 100 "pokeball" "none")
        legacy_example).2 = legacy_example.
Proof.
  destruct (proj2 callback_unknown_species
              (capture_event "missingno" 100 "pokeball" "none") legacy_example eq_refl)
    as (H1 & _ & H2 & _).
  split; [exact H1 |]. apply H2. discriminate.
Defined.

Lemma app_rows_of_none (s : App.state) :
  App.technique_rows None s
  = (Raise (TypeError "'NoneType' object is not subscriptable"), s).
Proof. reflexivity. Qed.

Lemma legacy_rows_of_none (s : Legacy.state) :
  Legacy.technique_rows None s
  = (Raise (TypeError "'NoneType' object is not subscriptable"), s).
Proof. reflexivity. Qed.

(** X16: with a known species but a ball or a berry that is not in its
    table, the callback does not report which identifier is missing:
    [catch_pokemon] prints its line and returns [None], and the callback
    raises [TypeError] on subscripting it.  The trigger has been applied
    before: the state left is the state after the trigger block with the
    printed line added. *)
Theorem callback_unknown_ball_or_berry :
  (forall ev (st : App.state),
     is_Some (App.pokemon_dict st !! ev_pokemonname ev) ->
     App.ballrate_dict st !! ev_ball ev = None \/ App.berry_dict st !! ev_berry ev = None ->
     let st1 := (App.triggers_handler (triggered_id ev) (ev_pokemonname ev)
                   (ev_shinyradio ev) (app_after_init st)).2 in
     exists st2,
       App.update_catchrates ev st
       = (Raise (TypeError "'NoneType' object is not subscriptable"), st2)
       /\ App.stdout st2
          = (App.stdout st ++
             [match App.ballrate_dict st !! ev_ball ev with
              | None => "Ball not found"
              | Some _ => "Berry not found"
              end])%list
       /\ App.pokemon_dict st2 = App.pokemon_dict st1
       /\ App.pokemonchain_dict st2 = App.pokemonchain_dict st1)
  /\
  (forall ev (st : Legacy.state),
     is_Some (Legacy.pokemon_dict st !! ev_pokemonname ev) ->
     Legacy.ballrate_dict st !! ev_ball ev = None
     \/ Legacy.berry_dict st !! ev_berry ev = None ->
     let st1 := (Legacy.update_catchrates_triggers (triggered_id ev) (ev_pokemonname ev)
                   (ev_shinyradio ev) st).2 in
     exists st2,
       Legacy.update_catchrates ev st
       = (Raise (TypeError "'NoneType' object is not subscriptable"), st2)
       /\ Legacy.stdout st2
          = (Legacy.stdout st ++
             [match Legacy.ballrate_dict st !! ev_ball ev with
              | None => "Ball not found"
              | Some _ => "Berry not found"
              end])%list
       /\ Legacy.pokemon_dict st2 = Legacy.pokemon_dict st1
       /\ Legacy.chain_dict st2 = Legacy.chain_dict st1).
Proof.
  split; intros ev st Hk Hmiss st1.
  - rewrite <- app_after_init_pokemon_dict in Hk.
    pose proof (pair_eta _ _ (app_triggers_returns (triggered_id ev) (ev_pokemonname ev)
                                (ev_shinyradio ev) _ Hk)) as Hrun.
    fold st1 in Hrun.
    pose proof (app_triggers_tables (triggered_id ev) (ev_pokemonname ev)
                  (ev_shinyradio ev) (app_after_init st)) as Htab.
    fold st1 in Htab. rewrite app_after_init_tables in Htab.
    assert (Et : App.ballrate_dict st1 = App.ballrate_dict st
                 /\ App.berry_dict st1 = App.berry_dict st)
      by (unfold app_tables in Htab; inversion Htab; auto).
    destruct Et as (Eb & Ey).
    assert (Hk1 : is_Some (App.pokemon_dict st1 !! ev_pokemonname ev)).
    { apply (counter_known _ _ _ _ (app_triggers_counter _ _ _ _ _)). exact Hk. }
    destruct Hk1 as [e1 He1].
    destruct (app_catch_pokemon_unresolved st1 (ev_pokemonname ev) (ev_cp ev) (ev_ball ev)
                (ev_berry ev)) as (st2 & Hcatch & Hout & Hd & Hc & _).
    { right. rewrite Eb, Ey. exact Hmiss. }
    exists st2. rewrite He1, Eb in Hout. split; [| split; [| split]]; auto.
    + rewrite app_update_unfold, (bind_eval _ _ _ st1 tt Hrun). unfold app_update_tail.
      assert (Hsub : subscript (fun st => App.pokemon_dict st !! ev_pokemonname ev)
                       (ev_pokemonname ev) st1 = (Ok e1, st1))
        by (unfold subscript; rewrite He1; reflexivity).
      rewrite (bind_eval _ _ st1 st1 e1 Hsub).
      rewrite (bind_eval _ _ st1 st1 (sprite_regular e1))
        by (unfold App.get_sprite; rewrite (bind_eval _ _ st1 st1 e1 Hsub); reflexivity).
      rewrite (bind_eval _ _ st1 st1 (sprite_shiny e1))
        by (unfold App.get_sprite; rewrite (bind_eval _ _ st1 st1 e1 Hsub); reflexivity).
      rewrite (bind_eval _ _ st1 st2 None Hcatch).
      apply bind_raise, app_rows_of_none.
    + rewrite Hout. unfold st1. rewrite app_triggers_stdout.
      unfold app_after_init. destruct (App.INIT_STATE st); reflexivity.
  - pose proof (pair_eta _ _ (legacy_triggers_returns (triggered_id ev) (ev_pokemonname ev)
                                (ev_shinyradio ev) _ Hk)) as Hrun.
    fold st1 in Hrun.
    pose proof (legacy_triggers_tables (triggered_id ev) (ev_pokemonname ev)
                  (ev_shinyradio ev) st) as Htab.
    fold st1 in Htab.
    assert (Et : Legacy.ballrate_dict st1 = Legacy.ballrate_dict st
                 /\ Legacy.berry_dict st1 = Legacy.berry_dict st)
      by (unfold legacy_tables in Htab; inversion Htab; auto).
    destruct Et as (Eb & Ey).
    assert (Hk1 : is_Some (Legacy.pokemon_dict st1 !! ev_pokemonname ev)).
    { apply (counter_known _ _ _ _ (legacy_triggers_counter _ _ _ _ _)). exact Hk. }
    destruct Hk1 as [e1 He1].
    destruct (legacy_catch_pokemon_unresolved st1 (ev_pokemonname ev) (ev_cp ev)
                (ev_ball ev) (ev_berry ev)) as (st2 & Hcatch & Hout & Hd & Hc).
    { right. rewrite Eb, Ey. exact Hmiss. }
    exists st2. rewrite He1, Eb in Hout. split; [| split; [| split]]; auto.
    + rewrite legacy_update_unfold, (bind_eval _ _ _ st1 tt Hrun).
      unfold legacy_update_tail.
      assert (Hsub : subscript (fun st => Legacy.pokemon_dict st !! ev_pokemonname ev)
                       (ev_pokemonname ev) st1 = (Ok e1, st1))
        by (unfold subscript; rewrite He1; reflexivity).
      rewrite (bind_eval _ _ st1 st1 e1 Hsub).
      rewrite (bind_eval _ _ st1 st1 (sprite_regular e1))
        by (unfold Legacy.get_sprite; rewrite (bind_eval _ _ st1 st1 e1 Hsub); reflexivity).
      rewrite (bind_eval _ _ st1 st1 (sprite_shiny e1))
        by (unfold Legacy.get_sprite; rewrite (bind_eval _ _ st1 st1 e1 Hsub); reflexivity).
      rewrite (bind_eval _ _ st1 st2 None Hcatch).
      apply bind_raise, legacy_rows_of_none.
    + rewrite Hout. unfold st1. rewrite legacy_triggers_stdout. reflexivity.
Qed.

Lemma callback_unknown_ball_or_berry_witness :
  exists st2,
    Legacy.update_catchrates (capture_event "pikachu" 100 "masterball" "none")
      legacy_example
    = (Raise (TypeError "'NoneType' object is not subscriptable"), st2)
    /\ Legacy.stdout st2 = ["Ball not found"]
    /\ counter_of (Legacy.pokemon_dict st2) "pikachu" = Some 1%Z.
Proof.
  destruct (proj2 callback_unknown_ball_or_berry
              (capture_event "pikachu" 100 "masterball" "none") legacy_example)
    as (st2 & Hrun & Hout & Hd & _).
  - eexists. reflexivity.
  - left. reflexivity.
  - exists st2. split; [exact Hrun |]. split; [exact Hout |]. rewrite Hd. reflexivity.
Defined.

End CallbackErrors.

(** ** The shiny flag *)

Section Shiny.

Lemma shiny_of_insert_counter d name e n q :
  d !! name = Some e ->
  shiny_of (<[name := set_times_caught n e]> d) q = shiny_of d q.
Proof.
  intros He. unfold shiny_of.
  destruct (decide (name = q)) as [-> | Hne].
  - rewrite lookup_insert_eq, He. reflexivity.
  - rewrite lookup_insert_ne by assumption. reflexivity.
Qed.

Lemma shiny_of_insert_shiny d name e v q :
  d !! name = Some e ->
  shiny_of (<[name := set_shiny_caught v e]> d) q
  = if String.eqb name q then Some v else shiny_of d q.
Proof.
  intros He. unfold shiny_of.
  destruct (String.eqb_spec name q) as [-> | Hne].
  - rewrite lookup_insert_eq. reflexivity.
  - rewrite lookup_insert_ne by assumption. reflexivity.
Qed.

Lemma option_map_id {A : Type} (x : option A) : (fun a => a) <$> x = x.
Proof. destruct x; reflexivity. Qed.

Lemma legacy_triggers_shiny trigger name v st q :
  shiny_of (Legacy.pokemon_dict (Legacy.update_catchrates_triggers trigger name v st).2) q
  = (fun old => if bool_decide (trigger = Some "shinyradio") && String.eqb name q
                then v else old)
    <$> shiny_of (Legacy.pokemon_dict st) q.
Proof.
  unfold Legacy.update_catchrates_triggers.
  destruct (decide (trigger = Some "add1_btn")) as [E1 | E1].
  - rewrite bool_decide_eq_false_2 by (rewrite E1; discriminate). simpl andb.
    rewrite option_map_id. unfold bind, subscript, modify, gets.
    destruct (Legacy.pokemon_dict st !! name) as [e |] eqn:He; simpl; [| reflexivity].
    apply shiny_of_insert_counter, He.
  - destruct (decide (trigger = Some "resetchain_btn")) as [E2 | E2].
    + rewrite bool_decide_eq_false_2 by (rewrite E2; discriminate). simpl andb.
      rewrite option_map_id. reflexivity.
    + destruct (decide (trigger = Some "shinyradio")) as [E3 | E3].
      * rewrite (bool_decide_eq_true_2 _ E3). simpl andb.
        unfold bind, subscript, modify.
        destruct (Legacy.pokemon_dict st !! name) as [e |] eqn:He; simpl.
        -- rewrite (shiny_of_insert_shiny _ _ _ _ _ He).
           destruct (String.eqb_spec name q) as [<- | Hne].
           ++ unfold shiny_of. rewrite He. reflexivity.
           ++ symmetry. apply option_map_id.
        -- destruct (String.eqb_spec name q) as [<- | Hne].
           ++ unfold shiny_of. rewrite He. reflexivity.
           ++ symmetry. apply option_map_id.
      * rewrite (bool_decide_eq_false_2 _ E3). simpl andb.
        rewrite option_map_id. reflexivity.
Qed.

Lemma app_triggers_shiny trigger name v st q :
  shiny_of (App.pokemon_dict (App.triggers_handler trigger name v st).2) q
  = (fun old => if bool_decide (trigger = Some "shinyradio") && String.eqb name q
                then v else old)
    <$> shiny_of (App.pokemon_dict st) q.
Proof.
  unfold App.triggers_handler.
  destruct (decide (trigger = Some "add1_btn")) as [E1 | E1].
  - rewrite bool_decide_eq_false_2 by (rewrite E1; discriminate). simpl andb.
    rewrite option_map_id. unfold bind, subscript, modify, gets.
    destruct (App.pokemon_dict st !! name) as [e |] eqn:He; simpl; [| reflexivity].
    apply shiny_of_insert_counter, He.
  - destruct (decide (trigger = Some "resetchain_btn")) as [E2 | E2].
    + rewrite bool_decide_eq_false_2 by (rewrite E2; discriminate). simpl andb.
      rewrite option_map_id. reflexivity.
    + destruct (decide (trigger = Some "shinyradio")) as [E3 | E3].
      * rewrite (bool_decide_eq_true_2 _ E3). simpl andb.
        unfold bind, subscript, modify.
        destruct (App.pokemon_dict st !! name) as [e |] eqn:He; simpl.
        -- rewrite (shiny_of_insert_shiny _ _ _ _ _ He).
           destruct (String.eqb_spec name q) as [<- | Hne].
           ++ unfold shiny_of. rewrite He. reflexivity.
           ++ symmetry. apply option_map_id.
        -- destruct (String.eqb_spec name q) as [<- | Hne].
           ++ unfold shiny_of. rewrite He. reflexivity.
           ++ symmetry. apply option_map_id.
      * rewrite (bool_decide_eq_false_2 _ E3). simpl andb.
        rewrite option_map_id. reflexivity.
Qed.

Lemma legacy_step_shiny st ev q :
  shiny_of (Legacy.pokemon_dict (Legacy.step st ev)) q
  = (fun old => if is_shiny_of q ev then ev_shinyradio ev else old)
    <$> shiny_of (Legacy.pokemon_dict st) q.
Proof.
  apply (legacy_update_after_triggers
           (fun s => shiny_of (Legacy.pokemon_dict s) q
                     = (fun old => if is_shiny_of q ev then ev_shinyradio ev else old)
                       <$> shiny_of (Legacy.pokemon_dict st) q)).
  - intros line s Hs. exact Hs.
  - apply legacy_triggers_shiny.
Qed.

Lemma app_step_shiny st ev q :
  shiny_of (App.pokemon_dict (app_step st ev)) q
  = (fun old => if is_shiny_of q ev then ev_shinyradio ev else old)
    <$> shiny_of (App.pokemon_dict st) q.
Proof.
  apply (app_step_after_triggers
           (fun s => shiny_of (App.pokemon_dict s) q
                     = (fun old => if is_shiny_of q ev then ev_shinyradio ev else old)
                       <$> shiny_of (App.pokemon_dict st) q)).
  - intros line s Hs. exact Hs.
  - rewrite app_triggers_shiny, app_after_init_pokemon_dict. reflexivity.
Qed.

(** X17: the shiny flag stored for a species is the radio value of the last
    click on the shiny radio made with that species selected, and the flag
    it had before if there was none: captures, resets, selections and failed
    callbacks leave it alone. *)
Theorem shiny_flag_is_last_radio :
  (forall (st : App.state) evs pokemon,
     shiny_of (App.pokemon_dict (app_run evs st)) pokemon
     = shiny_after pokemon evs <$> shiny_of (App.pokemon_dict st) pokemon)
  /\
  (forall (st : Legacy.state) evs pokemon,
     shiny_of (Legacy.pokemon_dict (Legacy.run evs st)) pokemon
     = shiny_after pokemon evs <$> shiny_of (Legacy.pokemon_dict st) pokemon).
Proof.
  split; intros st evs pokemon; revert st;
    (induction evs as [| ev evs IH]; intros st;
     [ symmetry; apply option_map_id |]).
  - change (app_run (ev :: evs) st) with (app_run evs (app_step st ev)).
    rewrite IH, app_step_shiny.
    destruct (shiny_of (App.pokemon_dict st) pokemon); reflexivity.
  - change (Legacy.run (ev :: evs) st) with (Legacy.run evs (Legacy.step st ev)).
    rewrite IH, legacy_step_shiny.
    destruct (shiny_of (Legacy.pokemon_dict st) pokemon); reflexivity.
Qed.

End Shiny.

(** ** The additive variant and the counter; resets; closed forms *)

Section More.

#[local] Open Scope R_scope.

Lemma legacy_calc_reads_cap (st : Legacy.state) pokemon entry (v w : Z)
    cp ball berry technique :
  Z.min 100 v = Z.min 100 w ->
  (Legacy.catchrate_calc pokemon cp ball berry technique
     (legacy_with_counter st pokemon entry v)).1
  = (Legacy.catchrate_calc pokemon cp ball berry technique
       (legacy_with_counter st pokemon entry w)).1.
Proof.
  intros Hmin.
  unfold Legacy.catchrate_calc, bind, subscript, int_truediv, float_of_int, ret, raise,
    legacy_with_counter, Legacy.with_pokemon_dict.
  simpl. rewrite !lookup_insert_eq. simpl. rewrite Hmin.
  destruct (decide (100 = 0)%Z); [discriminate |].
  destruct (decide (Z.abs _ < _)%Z); [| reflexivity]. simpl.
  destruct (decide (Z.abs _ < _)%Z); [| reflexivity]. simpl.
  destruct (decide (_ = 0)); [reflexivity |]. simpl.
  destruct (Legacy.ballrate_dict st !! ball); [| reflexivity]. simpl.
  destruct (assoc (Legacy.technique_dict st) technique); [| reflexivity]. simpl.
  destruct (Legacy.berry_dict st !! berry); [| reflexivity]. simpl.
  destruct (decide _); [reflexivity |].
  destruct (decide _); reflexivity.
Qed.

(** X18: [pokemon_catchrate.py] treats the counter as [app.py] does: the
    computation sees the stored counter only through [min(100, _)], so two
    stored values with the same cap give the same result, and once the
    counter of a species has reached 100 the returned value is the same for
    any two positive combat powers that convert to a float (the table
    entries being moderate), while a larger one raises [OverflowError]. *)
Theorem legacy_counter_cap
    (st : Legacy.state) pokemon (cp1 cp2 : Z) ball berry technique entry b t y :
  resolved (Legacy.pokemon_dict st) (Legacy.ballrate_dict st) (Legacy.technique_dict st)
    (Legacy.berry_dict st) pokemon ball berry technique entry b t y ->
  (forall (v w : Z),
     Z.min 100 v = Z.min 100 w ->
     (Legacy.catchrate_calc pokemon cp1 ball berry technique
        (legacy_with_counter st pokemon entry v)).1
     = (Legacy.catchrate_calc pokemon cp1 ball berry technique
          (legacy_with_counter st pokemon entry w)).1)
  /\ ((100 <= times_caught entry)%Z ->
      moderate_entries entry b t y ->
      (0 < cp1 < float_max_int)%Z -> (0 < cp2 < float_max_int)%Z ->
      exists p,
        Legacy.catchrate_calc pokemon cp1 ball berry technique st = (Ok p, st)
        /\ Legacy.catchrate_calc pokemon cp2 ball berry technique st = (Ok p, st))
  /\ (forall cp : Z,
        (float_max_int <= cp)%Z ->
        Legacy.catchrate_calc pokemon cp ball berry technique st
        = (Raise OverflowError, st)).
Proof.
  intros Hres. split; [| split].
  - intros v w Hmin. apply legacy_calc_reads_cap, Hmin.
  - intros Htc _ Hcp1 Hcp2.
    pose proof (full_counter_denominator (times_caught entry) cp1 Htc) as D1.
    pose proof (full_counter_denominator (times_caught entry) cp2 Htc) as D2.
    change App.cp_denominator with Legacy.cp_denominator in D1, D2.
    eexists. split.
    + apply (legacy_calc_resolved st _ _ _ _ _ _ _ _ _ Hres). lia.
    + rewrite (legacy_calc_resolved st _ cp2 _ _ _ _ _ _ _ Hres) by lia.
      rewrite D1, D2. reflexivity.
  - intros cp Hcp. destruct Hres as [Hp _ _ _ _ _ _ _ Htc].
    apply (legacy_calc_overflow st _ _ _ _ _ entry Hp Htc). lia.
Qed.

Lemma legacy_counter_cap_witness :
  exists p,
    Legacy.catchrate_calc "alola-raichu" 12 "pokeball" "none" "None" legacy_example
    = (Ok p, legacy_example)
    /\ Legacy.catchrate_calc "alola-raichu" 850 "pokeball" "none" "None" legacy_example
       = (Ok p, legacy_example).
Proof.
  apply (proj1 (proj2 (legacy_counter_cap legacy_example "alola-raichu" 12 850
                  "pokeball" "none" "None" (example_entry 75 120) 1 1 1
                  (example_resolved_legacy "alola-raichu" 75 120 eq_refl
                     ltac:(lra) ltac:(lia))))).
  - simpl. lia.
  - apply example_moderate. lra.
  - split; [lia | reflexivity].
  - split; [lia | reflexivity].
Defined.

(** X19: the first capture after a reset starts a streak of 1, whether the
    species is the one caught before the reset or another one: the reset
    keeps the last species but the streak restarts from 0. *)
Theorem capture_after_reset_starts_at_one :
  (forall (st : App.state) A name shinyradio,
     is_Some (App.pokemon_dict st !! A) ->
     exists st1 st2,
       App.triggers_handler (Some "resetchain_btn") name shinyradio st = (Ok tt, st1)
       /\ App.chain_pokemonname (App.pokemonchain_dict st1)
          = App.chain_pokemonname (App.pokemonchain_dict st)
       /\ App.triggers_handler (Some "add1_btn") A shinyradio st1 = (Ok tt, st2)
       /\ App.chain_chainvalue (App.pokemonchain_dict st2) = 1%Z
       /\ App.chain_pokemonname (App.pokemonchain_dict st2) = A)
  /\
  (forall (st : Legacy.state) A name shinyradio,
     is_Some (Legacy.pokemon_dict st !! A) ->
     exists st1 st2,
       Legacy.update_catchrates_triggers (Some "resetchain_btn") name shinyradio st
       = (Ok tt, st1)
       /\ Legacy.last_catch (Legacy.chain_dict st1) = Legacy.last_catch (Legacy.chain_dict st)
       /\ Legacy.update_catchrates_triggers (Some "add1_btn") A shinyradio st1 = (Ok tt, st2)
       /\ Legacy.chainvalue (Legacy.chain_dict st2) = 1%Z
       /\ Legacy.last_catch (Legacy.chain_dict st2) = A).
Proof.
  split; intros st A name shinyradio [e He].
  - pose (st1 := App.with_chaintext (td_normal "No chain")
                   (App.with_pokemonchain_dict
                      {| App.chain_pokemonname :=
                           App.chain_pokemonname (App.pokemonchain_dict st);
                         App.chain_chainvalue := 0;
                         App.chain_chaintext := "No chain" |} st)).
    assert (R1 : App.triggers_handler (Some "resetchain_btn") name shinyradio st
                 = (Ok tt, st1)).
    { unfold App.triggers_handler.
      destruct (decide _) as [E | _]; [discriminate |].
      destruct (decide _) as [_ | E]; [reflexivity | congruence]. }
    destruct (app_capture_chain st1 A shinyradio e He) as (st2 & R2 & _ & _ & L2 & V2 & _).
    exists st1, st2. split; [exact R1 |]. split; [reflexivity |].
    split; [exact R2 |]. split; [| exact L2].
    rewrite V2. simpl. destruct (String.eqb _ _); reflexivity.
  - pose (st1 := Legacy.with_chain_dict
                   {| Legacy.chaintext_init := Legacy.chaintext_init (Legacy.chain_dict st);
                      Legacy.chaintext := Legacy.chaintext_init (Legacy.chain_dict st);
                      Legacy.current_catch := Legacy.current_catch (Legacy.chain_dict st);
                      Legacy.last_catch := Legacy.last_catch (Legacy.chain_dict st);
                      Legacy.chainvalue := 0 |} st).
    assert (R1 : Legacy.update_catchrates_triggers (Some "resetchain_btn") name shinyradio st
                 = (Ok tt, st1)).
    { unfold Legacy.update_catchrates_triggers.
      destruct (decide _) as [E | _]; [discriminate |].
      destruct (decide _) as [_ | E]; [reflexivity | congruence]. }
    destruct (legacy_capture_chain st1 A shinyradio e He) as (st2 & R2 & _ & _ & L2 & V2).
    exists st1, st2. split; [exact R1 |]. split; [reflexivity |].
    split; [exact R2 |]. split; [| exact L2].
    rewrite V2. simpl. destruct (String.eqb _ _); reflexivity.
Qed.

Lemma capture_after_reset_starts_at_one_witness :
  exists st1 st2,
    App.triggers_handler (Some "resetchain_btn") "pikachu" "No" app_example = (Ok tt, st1)
    /\ App.chain_pokemonname (App.pokemonchain_dict st1) = "pikachu"
    /\ App.triggers_handler (Some "add1_btn") "pikachu" "No" st1 = (Ok tt, st2)
    /\ App.chain_chainvalue (App.pokemonchain_dict st2) = 1%Z
    /\ App.chain_pokemonname (App.pokemonchain_dict st2) = "pikachu".
Proof.
  apply (proj1 capture_after_reset_starts_at_one app_example "pikachu" "pikachu" "No").
  eexists. reflexivity.
Defined.

Lemma round_half_even_error (x : R) : Rabs (IZR (Py.round_half_even x) - x) <= 1 / 2.
Proof.
  unfold Py.round_half_even. cbv zeta. destruct (floor_spec x) as [Lo Hi].
  apply Rabs_le.
  repeat destruct (decide _); try destruct (Z.even _); rewrite ?plus_IZR; lra.
Qed.

Lemma round2_error (x : R) : Rabs (Py.round2 x - x) <= 5 / 1000.
Proof.
  unfold Py.round2. pose proof (round_half_even_error (x * 100)) as H.
  unfold Rabs in *.
  destruct (Rcase_abs (IZR (Py.round_half_even (x * 100)) - x * 100)),
           (Rcase_abs (IZR (Py.round_half_even (x * 100)) / 100 - x)); lra.
Qed.

Lemma pow_inverse_base (x e : R) : 0 < x -> Py.pow (/ x) e = / Py.pow x e.
Proof.
  intros Hx. unfold Py.pow, Rpower. rewrite ln_Rinv by exact Hx.
  rewrite <- exp_Ropp. f_equal. lra.
Qed.

Lemma app_closed_form (a : R) :
  0 < a -> App.residual a / 65535 * 100 = 100 * Py.pow (a / 255) (1 / 5.33).
Proof.
  intros Ha. unfold App.residual.
  replace (255 / a) with (/ (a / 255)) by (field; lra).
  rewrite pow_inverse_base by (apply Rdiv_lt_0_compat; lra).
  pose proof (pow_pos (a / 255) (1 / 5.33)). field. lra.
Qed.

(** X20: the multiplicative formula is a power law in which the constant
    65535 cancels: before the clamp the probability is
    [100 * (a / 255) ** (1 / 5.33)].  The value [app.py] returns for a valid
    input with moderate table entries whose combat power converts to a
    float is within 0.005 of the clamped closed form; the additive value of
    [pokemon_catchrate.py] is within 0.005 of
    [100 - (65535 / 65536 * 100) / a ** (5 / 16)], where the two constants
    do not cancel. *)
Theorem closed_forms :
  (forall (st : App.state) pokemon (cp : Z) ball berry technique entry b t y,
     resolved (App.pokemon_dict st) (App.ballrate_dict st) (App.technique_dict st)
       (App.berry_dict st) pokemon ball berry technique entry b t y ->
     moderate_entries entry b t y ->
     (0 < cp < float_max_int)%Z ->
     let a := App.scale_factor (catch_rate entry)
                (App.cp_denominator (Z.min 100 (times_caught entry)) cp) b t y in
     App.residual a / 65535 * 100 = 100 * Py.pow (a / 255) (1 / 5.33)
     /\ exists p,
          App.catchrate_calc pokemon cp ball berry technique st = (Ok p, st)
          /\ Rabs (p - Py.min 100 (100 * Py.pow (a / 255) (1 / 5.33))) <= 5 / 1000)
  /\
  (forall (st : Legacy.state) pokemon (cp : Z) ball berry technique entry b t y,
     resolved (Legacy.pokemon_dict st) (Legacy.ballrate_dict st)
       (Legacy.technique_dict st) (Legacy.berry_dict st)
       pokemon ball berry technique entry b t y ->
     moderate_entries entry b t y ->
     (0 < cp < float_max_int)%Z ->
     let a := Legacy.scale_factor (catch_rate entry)
                (Legacy.cp_denominator (Z.min 100 (times_caught entry)) cp) b t y in
     exists p,
       Legacy.catchrate_calc pokemon cp ball berry technique st = (Ok p, st)
       /\ Rabs (p - (100 - 65535 / 65536 * 100 / Py.pow a (5 / 16))) <= 5 / 1000).
Proof.
  split.
  - intros st pokemon cp ball berry technique entry b t y Hres _ Hcp a.
    pose proof (app_closed_form a (app_scale_pos _ _ _ _ _)) as Hcf.
    split; [exact Hcf |]. eexists. split.
    + apply (app_calc_resolved st _ _ _ _ _ _ _ _ _ Hres). lia.
    + fold a. unfold App.percent. cbv zeta. rewrite Hcf. apply round2_error.
  - intros st pokemon cp ball berry technique entry b t y Hres _ Hcp a.
    eexists. split.
    + apply (legacy_calc_resolved st _ _ _ _ _ _ _ _ _ Hres). lia.
    + fold a. destruct (legacy_percent_unclamped _ (legacy_residual_pos a)) as [_ ->].
      unfold Legacy.residual. pose proof (pow_pos a (5 / 16)) as Hw.
      replace (100 - 65535 / 65536 * 100 / Py.pow a (5 / 16))
        with ((1 - 65535 / Py.pow a (5 / 16) / 65536) * 100) by (field; lra).
      apply round2_error.
Qed.

Lemma closed_forms_witness :
  exists p,
    Legacy.catchrate_calc "pikachu" 100 "pokeball" "none" "None" legacy_example
    = (Ok p, legacy_example)
    /\ Rabs (p - (100 - 65535 / 65536 * 100
                       / Py.pow (Legacy.scale_factor 190
                                   (Legacy.cp_denominator (Z.min 100 0) 100) 1 1 1)
                           (5 / 16))) <= 5 / 1000.
Proof.
  apply (proj2 closed_forms legacy_example "pikachu" 100%Z "pokeball" "none" "None"
           (example_entry 190 0) 1 1 1).
  - apply example_resolved_legacy; [reflexivity | lra | lia].
  - apply example_moderate. lra.
  - split; [lia | reflexivity].
Defined.

End More.

(** ** Where the floats leave the reals: overflow, zero and negative bases *)

Section SpecialValues.

#[local] Open Scope R_scope.





(** X21: a combat power that does not convert to a float, of magnitude
    [2^1024 - 2^970] or more, stops [catch_pokemon] with [OverflowError]
    in both variants, for a known, counted species, a known ball and berry
    and a technique table that is not empty; the state is left as it was. *)
Theorem overflowing_combat_power :
  (forall (st : App.state) pokemon (cp : Z) ball berry entry b y,
     App.pokemon_dict st !! pokemon = Some entry ->
     App.ballrate_dict st !! ball = Some b ->
     App.berry_dict st !! berry = Some y ->
     App.technique_dict st <> [] ->
     (0 <= times_caught entry)%Z ->
     (float_max_int <= Z.abs cp)%Z ->
     App.catch_pokemon pokemon cp ball berry st = (Raise OverflowError, st))
  /\
  (forall (st : Legacy.state) pokemon (cp : Z) ball berry entry b y,
     Legacy.pokemon_dict st !! pokemon = Some entry ->
     Legacy.ballrate_dict st !! ball = Some b ->
     Legacy.berry_dict st !! berry = Some y ->
     Legacy.technique_dict st <> [] ->
     (0 <= times_caught entry)%Z ->
     (float_max_int <= Z.abs cp)%Z ->
     Legacy.catch_pokemon pokemon cp ball berry st = (Raise OverflowError, st)).
Proof.
  split; intros st pokemon cp ball berry entry b y Hp Hb Hy Hne Htc Hcp.
  - rewrite (app_catch_pokemon_guards st _ _ _ _ _ _ _ Hp Hb Hy).
    destruct (App.technique_dict st) as [| x l]; [contradiction |].
    apply bind_raise, for_each_raise, bind_raise.
    exact (app_calc_overflow st _ _ _ _ _ _ Hp Htc Hcp).
  - rewrite (legacy_catch_pokemon_guards st _ _ _ _ _ _ _ Hp Hb Hy).
    destruct (Legacy.technique_dict st) as [| x l]; [contradiction |].
    apply bind_raise, for_each_raise, bind_raise.
    exact (legacy_calc_overflow st _ _ _ _ _ _ Hp Htc Hcp).
Qed.

Lemma overflowing_combat_power_witness :
  App.catch_pokemon "alola-raichu" (10 ^ 400) "pokeball" "none" app_example
  = (Raise OverflowError, app_example)
  /\ Legacy.catch_pokemon "pikachu" (- 2 ^ 1024) "pokeball" "none" legacy_example
     = (Raise OverflowError, legacy_example).
Proof.
  split.
  - apply (proj1 overflowing_combat_power app_example "alola-raichu" (10 ^ 400)%Z
             "pokeball" "none" (example_entry 75 120) 1 1); try reflexivity.
    + discriminate.
    + simpl. lia.
    + vm_compute. discriminate.
  - apply (proj2 overflowing_combat_power legacy_example "pikachu" (- 2 ^ 1024)%Z
             "pokeball" "none" (example_entry 190 0) 1 1); try reflexivity.
    + discriminate.
    + vm_compute. discriminate.
Defined.





End SpecialValues.
